(** * Helper functions of the GSheets adapter (shillelagh/adapters/api/gsheets/lib.py)

    A shallow embedding of the column address codec ([gen_letters],
    [get_index_from_letters]), the row materializer ([get_values_from_row]),
    the URL builder ([get_url]) and the synchronization mode resolver
    ([get_sync_mode]), with the properties the specification states of them.

    Conventions of the embedding:
    - a Python [str] is the [string] of the bytes of its UTF-8 encoding.
      On ASCII text the bytes are the characters, and the string operations
      below ([upper], [int], [unquote]) are the ones of Python; on other
      text [str.upper] and [int] follow Unicode and [unquote] decodes the
      escaped bytes, which this embedding does not describe: a property
      that depends on them is stated of ASCII text ([is_ascii]);
    - a Python [int] is a [Z]; the interpreter has the default limit of
      [int_max_str_digits] digits on the conversions between [int] and
      [str]: [int(s)] raises beyond it, and a property that depends on
      [str(z)] is stated of integers within it;
    - [sys.maxsize] is the one of a 64-bit build; memory is not bounded
      otherwise: a list is as long as the computation makes it;
    - a Python exception is a constructor of [exn], and a function that can
      raise returns a [result];
    - a Python [dict] is an association list in insertion order, written
      with [dict_set] and read with [dict_get];
    - a Python generator is its state and the function that resumes it. *)

From Stdlib Require Import ZArith List String Ascii Bool Lia.
From Stdlib Require Import Numbers.DecimalString.
From Stdlib Require Import Sorting.Permutation.
Import ListNotations.

Local Open Scope string_scope.
Local Open Scope Z_scope.

(** ** Exceptions *)

Inductive exn : Type :=
| ValueError
| KeyError
| ProgrammingError (message : string).

Inductive result (A : Type) : Type :=
| Ok (a : A)
| Raise (e : exn).

Arguments Ok {A} a.
Arguments Raise {A} e.

Definition bind {A B : Type} (r : result A) (k : A -> result B) : result B :=
  match r with
  | Ok a => k a
  | Raise e => Raise e
  end.

Notation "x <- r ;; k" := (bind r (fun x => k))
  (at level 61, r at next level, right associativity).

(** [[f(x) for x in xs]] where [f] can raise: the first exception aborts. *)
Fixpoint comprehension {A B : Type} (f : A -> result B) (xs : list A)
  : result (list B) :=
  match xs with
  | [] => Ok []
  | x :: xs' => y <- f x ;; ys <- comprehension f xs' ;; Ok (y :: ys)
  end.

(** ** Strings *)

Definition ascii_uppercase : string := "ABCDEFGHIJKLMNOPQRSTUVWXYZ".

Definition len (s : string) : nat := String.length s.

(** [s.index(c)] for a one-character [c]: the position of its first
    occurrence, [ValueError] when there is none. *)
Fixpoint str_index (s : string) (c : ascii) : result nat :=
  match s with
  | EmptyString => Raise ValueError
  | String d s' =>
      if Ascii.eqb d c then Ok 0%nat
      else i <- str_index s' c ;; Ok (S i)
  end.

(** [s[i]] for [0 <= i < len(s)]; Python raises [IndexError] outside, which
    the callers below never reach (for the generator see [gen_index_bound]). *)
Definition str_item (s : string) (i : nat) : ascii :=
  match String.get i s with
  | Some c => c
  | None => "A"%char
  end.

(** [l[-1] = x] on a list; Python raises [IndexError] on the empty list,
    which [gen_letters] never reaches (see [gen_letters_nonempty]). *)
Fixpoint set_last {A : Type} (l : list A) (x : A) : list A :=
  match l with
  | [] => []
  | [_] => [x]
  | y :: l' => y :: set_last l' x
  end.

(** [enumerate(l)] *)
Definition enumerate {A : Type} (l : list A) : list (nat * A) :=
  combine (seq 0 (List.length l)) l.

(** [sum(l)] over integers *)
Definition sum (l : list Z) : Z := fold_left Z.add l 0.

(** ** Column address codec *)

Module Codec.

(** The state of the generator [gen_letters]: its two local variables. *)
Record gen_state : Type := mk_gen {
  letters : list ascii;
  index : nat
}.

(** [letters = ["A"]; index = 0] *)
Definition gen_start : gen_state := mk_gen ["A"%char] 0.

(** [yield "".join(letters)] *)
Definition gen_yield (st : gen_state) : string :=
  string_of_list_ascii (letters st).

(** The body of the loop after the [yield], up to the next [yield]. *)
Definition gen_resume (st : gen_state) : gen_state :=
  let index := S (index st) in
  if Nat.eqb index (len ascii_uppercase) then
    mk_gen (set_last (letters st) "A"%char ++ ["A"%char]) 0
  else
    mk_gen (set_last (letters st) (str_item ascii_uppercase index)) index.

(** The state of the generator at its [n]-th [yield] (counted from 0). *)
Fixpoint gen_at (n : nat) : gen_state :=
  match n with
  | O => gen_start
  | S n' => gen_resume (gen_at n')
  end.

(** The [n]-th label that [gen_letters()] produces (counted from 0). *)
Definition gen_letters (n : nat) : string := gen_yield (gen_at n).

(** [itertools.islice(gen, n)] consumed to a list, from state [st]. *)
Fixpoint islice_from (st : gen_state) (n : nat) : list string :=
  match n with
  | O => []
  | S n' => gen_yield st :: islice_from (gen_resume st) n'
  end.

(** [sys.maxsize] *)
Definition maxsize : Z := 2 ^ 63 - 1.

(** [list(itertools.islice(gen_letters(), n))]; [islice] raises
    [ValueError] unless its stop is an integer between 0 and [sys.maxsize]. *)
Definition islice_gen_letters (n : Z) : result (list string) :=
  if (n <? 0) || (maxsize <? n) then Raise ValueError
  else Ok (islice_from gen_start (Z.to_nat n)).

(** [get_index_from_letters(letters)] *)
Definition get_index_from_letters (letters : string) : result Z :=
  digits <- comprehension
              (fun letter => i <- str_index ascii_uppercase letter ;;
                             Ok (Z.of_nat i + 1))
              (list_ascii_of_string letters) ;;
  let base26 := rev digits in
  Ok (sum (map (fun iv => snd iv * Z.of_nat (len ascii_uppercase) ^ Z.of_nat (fst iv))
               (enumerate base26))
      - 1).

End Codec.

(** ** Dictionaries *)

(** A [dict] with string keys, in insertion order. *)
Definition dict (V : Type) : Type := list (string * V).

(** [d.get(k)], with [None] for "absent" left to the caller. *)
Fixpoint dict_get {V : Type} (d : dict V) (k : string) : option V :=
  match d with
  | [] => None
  | (k', v) :: d' => if String.eqb k' k then Some v else dict_get d' k
  end.

(** [k in d] *)
Definition dict_mem {V : Type} (d : dict V) (k : string) : bool :=
  match dict_get d k with
  | Some _ => true
  | None => false
  end.

(** [d[k] = v]: a key already there keeps its place and takes the new
    value, a new key goes to the end. *)
Fixpoint dict_set {V : Type} (d : dict V) (k : string) (v : V) : dict V :=
  match d with
  | [] => [(k, v)]
  | (k', v') :: d' =>
      if String.eqb k' k then (k', v) :: d' else (k', v') :: dict_set d' k v
  end.

(** [d.values()] *)
Definition dict_values {V : Type} (d : dict V) : list V := map snd d.

(** [d.keys()] *)
Definition dict_keys {V : Type} (d : dict V) : list string := map fst d.

(** [max(l)] over strings: Python compares strings lexicographically by
    code point and keeps the first maximal element; [ValueError] on an
    empty sequence. *)
Definition str_max (l : list string) : result string :=
  match l with
  | [] => Raise ValueError
  | x :: l' =>
      Ok (fold_left (fun m item => if String.ltb m item then item else m) l' x)
  end.

(** ** Row materializer *)

Module Row.

(** The values a row holds ([typing.Any]); [PyNone] is Python's [None]. *)
Inductive Any : Type :=
| PyNone
| PyInt (z : Z)
| PyStr (s : string)
| PyBool (b : bool).

(** Modelled from the spec: the class [Field] of [shillelagh.fields] is not
    part of the source at hand; of a field, [get_values_from_row] uses only
    its value-serialization capability, [to_unformatted], which converts a
    typed value to its raw wire form. *)
Record Field : Type := mk_field {
  to_unformatted : Any -> Any
}.

(** [{k: columns[k].to_unformatted(v) for k, v in row.items() if k in columns}] *)
Definition unformat_row (row : dict Any) (columns : dict Field) : dict Any :=
  fold_left
    (fun acc kv =>
       match dict_get columns (fst kv) with
       | Some field => dict_set acc (fst kv) (to_unformatted field (snd kv))
       | None => acc
       end)
    row [].

(** [{column_map[k]: v for k, v in row.items() if k in column_map}] *)
Definition relabel_row (row : dict Any) (column_map : dict string) : dict Any :=
  fold_left
    (fun acc kv =>
       match dict_get column_map (fst kv) with
       | Some label => dict_set acc label (snd kv)
       | None => acc
       end)
    row [].

(** [row.get(column)] *)
Definition row_get (row : dict Any) (column : string) : Any :=
  match dict_get row column with
  | Some v => v
  | None => PyNone
  end.

(** [get_values_from_row(row, columns, column_map)] *)
Definition get_values_from_row
    (row : dict Any) (columns : dict Field) (column_map : dict string)
  : result (list Any) :=
  let row := unformat_row row columns in
  let row := relabel_row row column_map in
  top <- str_max (dict_values column_map) ;;
  last_index <- Codec.get_index_from_letters top ;;
  let n_cols := last_index + 1 in
  labels <- Codec.islice_gen_letters n_cols ;;
  Ok (map (row_get row) labels).

End Row.

(** ** More string operations *)

(** [sep.join(l)] *)
Fixpoint join (sep : string) (l : list string) : string :=
  match l with
  | [] => ""
  | [x] => x
  | x :: l' => x ++ sep ++ join sep l'
  end.

(** [c in s] for a one-character [c] *)
Fixpoint contains (s : string) (c : ascii) : bool :=
  match s with
  | EmptyString => false
  | String d s' => Ascii.eqb d c || contains s' c
  end.

(** [s.split(c)] for a one-character separator: never empty. *)
Fixpoint split (c : ascii) (s : string) : list string :=
  match s with
  | EmptyString => [""]
  | String d s' =>
      if Ascii.eqb d c then "" :: split c s'
      else match split c s' with
           | [] => [String d ""]
           | piece :: pieces => String d piece :: pieces
           end
  end.

(** [s.split(c, 1)] when [c in s], as the pair of what stands before and
    after the first [c]; [None] when [c] does not occur (Python then
    returns the one-element list [[s]]). *)
Fixpoint split1 (c : ascii) (s : string) : option (string * string) :=
  match s with
  | EmptyString => None
  | String d s' =>
      if Ascii.eqb d c then Some ("", s')
      else match split1 c s' with
           | Some (before, after) => Some (String d before, after)
           | None => None
           end
  end.

(** [s.rsplit(c, 1)] when [c in s]: split at the last [c]. *)
Fixpoint rsplit1 (c : ascii) (s : string) : option (string * string) :=
  match s with
  | EmptyString => None
  | String d s' =>
      match rsplit1 c s' with
      | Some (before, after) => Some (String d before, after)
      | None => if Ascii.eqb d c then Some ("", s') else None
      end
  end.

(** [s.replace(a, b)] for one-character [a] and [b] *)
Fixpoint replace (a b : ascii) (s : string) : string :=
  match s with
  | EmptyString => ""
  | String d s' => String (if Ascii.eqb d a then b else d) (replace a b s')
  end.

(** [s.replace(c, "")] for each [c] that satisfies [p] *)
Fixpoint remove_all (p : ascii -> bool) (s : string) : string :=
  match s with
  | EmptyString => ""
  | String d s' => if p d then remove_all p s' else String d (remove_all p s')
  end.

(** [s.lstrip(chars)], [chars] given as a predicate *)
Fixpoint lstrip (p : ascii -> bool) (s : string) : string :=
  match s with
  | EmptyString => ""
  | String d s' => if p d then lstrip p s' else s
  end.

(** [s.rstrip(chars)], [chars] given as a predicate *)
Fixpoint rstrip (p : ascii -> bool) (s : string) : string :=
  match s with
  | EmptyString => ""
  | String d s' =>
      match rstrip p s' with
      | EmptyString => if p d then "" else String d ""
      | r => String d r
      end
  end.

(** [s.strip(chars)] *)
Definition strip (p : ascii -> bool) (s : string) : string :=
  rstrip p (lstrip p s).

(** [s[n:]] for [n >= 0] *)
Fixpoint drop (n : nat) (s : string) : string :=
  match n, s with
  | O, _ => s
  | S n', String _ s' => drop n' s'
  | S _, EmptyString => ""
  end.

(** [s[:n]] for [n >= 0] *)
Fixpoint take (n : nat) (s : string) : string :=
  match n, s with
  | S n', String d s' => String d (take n' s')
  | _, _ => ""
  end.

(** [s[:-n]] for [n > 0] *)
Definition drop_last (n : nat) (s : string) : string :=
  take (len s - n) s.

(** [s.startswith(prefix)] *)
Definition startswith (s prefix : string) : bool := String.prefix prefix s.

(** [s.endswith(suffix)] *)
Definition endswith (s suffix : string) : bool :=
  (len suffix <=? len s)%nat && String.eqb (drop (len s - len suffix) s) suffix.

(** [all(p(c) for c in s)] *)
Fixpoint all_chars (p : ascii -> bool) (s : string) : bool :=
  match s with
  | EmptyString => true
  | String d s' => p d && all_chars p s'
  end.

Definition code (c : ascii) : nat := nat_of_ascii c.

Definition between (lo hi c : ascii) : bool :=
  (code lo <=? code c)%nat && (code c <=? code hi)%nat.

Definition is_upper (c : ascii) : bool := between "A" "Z" c.
Definition is_lower (c : ascii) : bool := between "a" "z" c.
Definition is_alpha (c : ascii) : bool := is_upper c || is_lower c.
Definition is_digit (c : ascii) : bool := between "0" "9" c.

(** [s.upper()] and [s.lower()] on ASCII text *)
Definition upper_char (c : ascii) : ascii :=
  if is_lower c then ascii_of_nat (code c - 32) else c.
Definition lower_char (c : ascii) : ascii :=
  if is_upper c then ascii_of_nat (code c + 32) else c.

Fixpoint map_chars (f : ascii -> ascii) (s : string) : string :=
  match s with
  | EmptyString => ""
  | String d s' => String (f d) (map_chars f s')
  end.

Definition upper (s : string) : string := map_chars upper_char s.
Definition lower (s : string) : string := map_chars lower_char s.

(** [s.isascii()] *)
Definition is_ascii (s : string) : bool :=
  all_chars (fun c => (code c <? 128)%nat) s.

(** ** Integers and their literals *)

(** [sys.int_info.default_max_str_digits], the greatest number of digits
    that [int(s)] and [str(z)] convert. *)
Definition int_max_str_digits : Z := 4300.

(** The white space that [int()] skips at both ends of an ASCII argument:
    tab, line feed, vertical tab, form feed, carriage return and space. *)
Definition is_space (c : ascii) : bool :=
  ((9 <=? code c) && (code c <=? 13) || (code c =? 32))%nat.

(** The digits of a decimal literal: [digit (["_"] digit)*]; [after_digit]
    tells whether the previous character was a digit. *)
Fixpoint int_digits (s : string) (acc : Z) (after_digit : bool) : option Z :=
  match s with
  | EmptyString => if after_digit then Some acc else None
  | String d s' =>
      if is_digit d then
        int_digits s' (10 * acc + Z.of_nat (code d - code "0")) true
      else if Ascii.eqb d "_" && after_digit then int_digits s' acc false
      else None
  end.

(** The number of digits in [s]. *)
Fixpoint count_digits (s : string) : Z :=
  match s with
  | EmptyString => 0
  | String d s' => (if is_digit d then 1 else 0) + count_digits s'
  end.

(** [int(s)] in base 10 for ASCII [s]: surrounding white space, an
    optional sign and a decimal literal of at most [int_max_str_digits]
    digits; [ValueError] otherwise. *)
Definition int (s : string) : result Z :=
  let s := strip is_space s in
  let parsed :=
    match s with
    | String "-" s' => option_map Z.opp (int_digits s' 0 false)
    | String "+" s' => int_digits s' 0 false
    | _ => int_digits s 0 false
    end in
  match parsed with
  | Some z =>
      if int_max_str_digits <? count_digits s then Raise ValueError else Ok z
  | None => Raise ValueError
  end.

(** [str(z)] for an integer of at most [int_max_str_digits] digits *)
Definition str (z : Z) : string := NilZero.string_of_int (Z.to_int z).

(** ** The standard library's [urllib.parse], as far as the adapter uses it *)

Module Urllib.

(** [urllib.parse.ParseResult] *)
Record ParseResult : Type := mk_parts {
  scheme : string;
  netloc : string;
  path : string;
  params : string;
  query : string;
  fragment : string
}.

Definition uses_netloc : list string :=
  [""; "ftp"; "http"; "gopher"; "nntp"; "telnet"; "imap"; "wais"; "file";
   "mms"; "https"; "shttp"; "snews"; "prospero"; "rtsp"; "rtspu"; "rsync";
   "svn"; "svn+ssh"; "sftp"; "nfs"; "git"; "git+ssh"; "ws"; "wss"].

Definition uses_params : list string :=
  [""; "ftp"; "hdl"; "prospero"; "http"; "imap"; "https"; "shttp"; "rtsp";
   "rtspu"; "sip"; "sips"; "mms"; "sftp"; "tel"].

Definition str_in (s : string) (l : list string) : bool :=
  existsb (String.eqb s) l.

Definition is_scheme_char (c : ascii) : bool :=
  is_alpha c || is_digit c || Ascii.eqb c "+" || Ascii.eqb c "-" || Ascii.eqb c ".".

Definition is_c0_control_or_space (c : ascii) : bool := (code c <=? 32)%nat.

Definition is_unsafe_url_byte (c : ascii) : bool :=
  (code c =? 9)%nat || (code c =? 13)%nat || (code c =? 10)%nat.

(** The scheme of [url], when it starts with one, and what follows the colon. *)
Definition split_scheme (url : string) : string * string :=
  match split1 ":" url with
  | Some (String c0 rest, after) =>
      if is_alpha c0 && all_chars is_scheme_char (String c0 rest)
      then (lower (String c0 rest), after)
      else ("", url)
  | _ => ("", url)
  end.

(** [_splitnetloc(url, 2)]: after the two slashes, the network location
    runs up to the first of [/], [?] and [#]. *)
Fixpoint span_netloc (s : string) : string * string :=
  match s with
  | EmptyString => ("", "")
  | String d s' =>
      if Ascii.eqb d "/" || Ascii.eqb d "?" || Ascii.eqb d "#" then ("", s)
      else let (domain, rest) := span_netloc s' in (String d domain, rest)
  end.

(** [urlsplit(url)]: [ValueError] when the brackets of the network location
    do not pair up.  (The further checks that recent versions make on a
    bracketed host and on a non-ASCII host are not modelled.) *)
Definition urlsplit (url : string)
  : result (string * string * string * string * string) :=
  let url := lstrip is_c0_control_or_space url in
  let url := remove_all is_unsafe_url_byte url in
  let (scheme, url) := split_scheme url in
  located <-
    (if startswith url "//" then
       let (netloc, rest) := span_netloc (drop 2 url) in
       if contains netloc "[" && negb (contains netloc "]")
          || contains netloc "]" && negb (contains netloc "[")
       then Raise ValueError
       else Ok (netloc, rest)
     else Ok ("", url)) ;;
  let (netloc, url) := (located : string * string) in
  let (url, fragment) :=
    match split1 "#" url with
    | Some (before, after) => (before, after)
    | None => (url, "")
    end in
  let (url, query) :=
    match split1 "?" url with
    | Some (before, after) => (before, after)
    | None => (url, "")
    end in
  Ok (scheme, netloc, url, query, fragment).

(** [_splitparams(url)] when [';' in url]: the parameters of the last path
    segment. *)
Definition splitparams (url : string) : string * string :=
  match rsplit1 "/" url with
  | Some (before, segment) =>
      match split1 ";" segment with
      | Some (name, params) => (before ++ "/" ++ name, params)
      | None => (url, "")
      end
  | None =>
      match split1 ";" url with
      | Some (name, params) => (name, params)
      | None => (url, "")
      end
  end.

(** [urlparse(url)] *)
Definition urlparse (url : string) : result ParseResult :=
  splitresult <- urlsplit url ;;
  let '(scheme, netloc, url, query, fragment) := splitresult in
  let (url, params) :=
    if str_in scheme uses_params && contains url ";" then splitparams url
    else (url, "") in
  Ok (mk_parts scheme netloc url params query fragment).

(** [urlunsplit((scheme, netloc, url, query, fragment))] *)
Definition urlunsplit (scheme netloc url query fragment : string) : string :=
  let url :=
    if negb (String.eqb netloc "")
       || (negb (String.eqb scheme "") && str_in scheme uses_netloc
           && negb (String.eqb (take 2 url) "//"))
    then
      let url :=
        if negb (String.eqb url "") && negb (String.eqb (take 1 url) "/")
        then "/" ++ url else url in
      "//" ++ netloc ++ url
    else url in
  let url := if negb (String.eqb scheme "") then scheme ++ ":" ++ url else url in
  let url := if negb (String.eqb query "") then url ++ "?" ++ query else url in
  let url := if negb (String.eqb fragment "") then url ++ "#" ++ fragment else url in
  url.

(** [urlunparse((scheme, netloc, url, params, query, fragment))]; a
    component that is [None] counts as the empty string. *)
Definition urlunparse (scheme netloc url params query fragment : string) : string :=
  let url := if negb (String.eqb params "") then url ++ ";" ++ params else url in
  urlunsplit scheme netloc url query fragment.

Definition hex_value (c : ascii) : option nat :=
  if is_digit c then Some (code c - code "0")%nat
  else if between "A" "F" c then Some (code c - code "A" + 10)%nat
  else if between "a" "f" c then Some (code c - code "a" + 10)%nat
  else None.

(** One of the pieces that follow a [%]: its first two characters, when
    they are hexadecimal digits, stand for one byte. *)
Definition unquote_item (item : string) : string :=
  match item with
  | String a (String b rest) =>
      match hex_value a, hex_value b with
      | Some x, Some y => String (ascii_of_nat (16 * x + y)) rest
      | _, _ => String "%" item
      end
  | _ => String "%" item
  end.

(** [unquote(string)].  (Python decodes the bytes so obtained as UTF-8 and
    replaces what is not UTF-8; here the bytes stay as they are.) *)
Definition unquote (s : string) : string :=
  match split "%" s with
  | [] => ""
  | first :: items => first ++ join "" (map unquote_item items)
  end.

(** [parse_qsl(qs)], with the defaults [keep_blank_values=False] and
    [strict_parsing=False] *)
Definition parse_qsl (qs : string) : list (string * string) :=
  let query_args := if String.eqb qs "" then [] else split "&" qs in
  flat_map
    (fun name_value =>
       match split1 "=" name_value with
       | Some (name, value) =>
           if negb (String.eqb value "") then
             [(unquote (replace "+" " " name), unquote (replace "+" " " value))]
           else []
       | None => []
       end)
    query_args.

(** [parse_qs(qs)]: every name with the list of its values, in order. *)
Definition parse_qs (qs : string) : dict (list string) :=
  fold_left
    (fun (parsed_result : dict (list string)) nv =>
       match dict_get parsed_result (fst nv) with
       | Some values => dict_set parsed_result (fst nv) (values ++ [snd nv])%list
       | None => dict_set parsed_result (fst nv) [snd nv]
       end)
    (parse_qsl qs) [].

Definition is_always_safe (c : ascii) : bool :=
  is_alpha c || is_digit c
  || Ascii.eqb c "_" || Ascii.eqb c "." || Ascii.eqb c "-" || Ascii.eqb c "~".

Definition hex_digit (n : nat) : ascii :=
  str_item "0123456789ABCDEF" n.

(** ['%{:02X}'.format(b)] *)
Definition percent (c : ascii) : string :=
  String "%" (String (hex_digit (code c / 16)) (String (hex_digit (code c mod 16)) "")).

(** [quote(string, safe)] *)
Fixpoint quote (s : string) (safe : string) : string :=
  match s with
  | EmptyString => ""
  | String d s' =>
      (if is_always_safe d || contains safe d then String d "" else percent d)
      ++ quote s' safe
  end.

(** [quote_plus(string)] *)
Definition quote_plus (s : string) : string :=
  if negb (contains s " ") then quote s ""
  else replace " " "+" (quote s " ").

(** The values of the dictionary [UrlArgs]: integers and strings. *)
Inductive arg : Type :=
| ArgInt (z : Z)
| ArgStr (s : string).

(** [str(v)] *)
Definition arg_str (v : arg) : string :=
  match v with
  | ArgInt z => str z
  | ArgStr s => s
  end.

(** [urlencode(query)] for a dictionary *)
Definition urlencode (query : dict arg) : string :=
  join "&" (map (fun kv => quote_plus (fst kv) ++ "=" ++ quote_plus (arg_str (snd kv)))
                query).

End Urllib.

(** [try: body except E: handler], [E] given as a predicate on exceptions *)
Definition try_except {A : Type}
    (body : result A) (caught : exn -> bool) (handler : result A) : result A :=
  match body with
  | Ok a => Ok a
  | Raise e => if caught e then handler else Raise e
  end.

Definition is_KeyError (e : exn) : bool :=
  match e with KeyError => true | _ => false end.

Definition is_ValueError (e : exn) : bool :=
  match e with ValueError => true | _ => false end.

(** ** URL builder *)

Module Url.

Import Urllib.

(** The rewritten path: [/edit] stripped from the end, then the endpoint
    [gviz/tq] joined to what is left without its trailing slashes. *)
Definition gviz_path (path : string) : string :=
  let path :=
    if endswith path "/edit" then drop_last (len "/edit") path else path in
  join "/" [rstrip (Ascii.eqb "/") path; "gviz/tq"].

(** [query_string[name][-1]]; the lists that [parse_qs] builds are never
    empty (see [parse_qs_nonempty]). *)
Definition last_value (values : list string) : string := last values "".

(** The header count, the grid id and the sheet name once the query string
    and the fragment of the parsed URL have overridden the defaults. *)
Definition resolve (parts : ParseResult)
    (headers gid : Z) (sheet : option string)
  : result (Z * Z * option string) :=
  let query_string := parse_qs (query parts) in
  headers <-
    match dict_get query_string "headers" with
    | Some values => int (last_value values)
    | None => Ok headers
    end ;;
  gid <-
    match dict_get query_string "gid" with
    | Some values => int (last_value values)
    | None => Ok gid
    end ;;
  let sheet :=
    match dict_get query_string "sheet" with
    | Some values => Some (last_value values)
    | None => sheet
    end in
  gid <-
    (if startswith (fragment parts) "gid="
     then int (drop (len "gid=") (fragment parts))
     else Ok gid) ;;
  Ok (headers, gid, sheet).

(** The dictionary [args] of the parameters to emit. *)
Definition url_args (headers gid : Z) (sheet : option string) : dict arg :=
  let args : dict arg := [] in
  let args :=
    if headers >? 0 then dict_set args "headers" (ArgInt headers) else args in
  match sheet with
  | Some name => dict_set args "sheet" (ArgStr name)
  | None => dict_set args "gid" (ArgInt gid)
  end.

(** [get_url(uri, headers, gid, sheet)] *)
Definition get_url (uri : string) (headers gid : Z) (sheet : option string)
  : result string :=
  parts <- urlparse uri ;;
  let path := gviz_path (path parts) in
  resolved <- resolve parts headers gid sheet ;;
  let '(headers, gid, sheet) := resolved in
  let params := urlencode (url_args headers gid sheet) in
  Ok (urlunparse (scheme parts) (netloc parts) path "" params "").

(** The names of the parameters that a query string carries, in order: of
    each piece between ampersands, what stands before its first equals
    sign. *)
Definition query_names (qs : string) : list string :=
  map (fun piece =>
         match split1 "=" piece with
         | Some (name, _) => name
         | None => piece
         end)
      (split "&" qs).

End Url.

(** ** Synchronization mode resolver *)

Module Sync.

Import Urllib.

Section Resolver.

(** Modelled from the spec: the enumeration [SyncMode] of
    [shillelagh.adapters.api.gsheets.types] is not part of the source at
    hand.  It is a closed enumeration whose values are identified by a
    symbolic name or by an integer code: here a type with the table of its
    members, each with its name and its code, in declaration order. *)
Variable SyncMode : Type.
Variable members : list (string * Z * SyncMode).

(** [SyncMode[name]]: [KeyError] when no member has that name. *)
Definition by_name (name : string) : result SyncMode :=
  match find (fun m => String.eqb (fst (fst m)) name) members with
  | Some m => Ok (snd m)
  | None => Raise KeyError
  end.

(** [SyncMode(value)]: [ValueError] when no member has that code. *)
Definition by_value (value : Z) : result SyncMode :=
  match find (fun m => Z.eqb (snd (fst m)) value) members with
  | Some m => Ok (snd m)
  | None => Raise ValueError
  end.

(** [get_sync_mode(uri)] *)
Definition get_sync_mode (uri : string) : result (option SyncMode) :=
  parts <- urlparse uri ;;
  let query_string := parse_qs (query parts) in
  match dict_get query_string "sync_mode" with
  | None => Ok None
  | Some values =>
      let parameter := upper (Url.last_value values) in
      sync_mode <-
        try_except (by_name parameter) is_KeyError
          (try_except (value <- int parameter ;; by_value value) is_ValueError
             (Raise (ProgrammingError ("Invalid sync mode: " ++ parameter)))) ;;
      Ok (Some sync_mode)
  end.

End Resolver.

Arguments by_name {SyncMode} members name.
Arguments by_value {SyncMode} members value.
Arguments get_sync_mode {SyncMode} members uri.

(** Modelled from the spec: an enumeration on which to evaluate the
    resolver.  The documentation of [get_sync_mode] gives [BATCH] the code
    3; the two other members stand for the rest of the enumeration, and no
    statement below depends on them. *)
Inductive SyncMode : Type :=
| BIDIRECTIONAL
| UNIDIRECTIONAL
| BATCH.

Definition SyncMode_members : list (string * Z * SyncMode) :=
  [("BIDIRECTIONAL", 1, BIDIRECTIONAL);
   ("UNIDIRECTIONAL", 2, UNIDIRECTIONAL);
   ("BATCH", 3, BATCH)].

End Sync.

(** ** Error messages of the Chart API *)

Module Errors.

(** [d[k]]: [KeyError] when the key is absent. *)
Definition dict_item {V : Type} (d : dict V) (k : string) : result V :=
  match dict_get d k with
  | Some v => Ok v
  | None => Raise KeyError
  end.

(** The separator ["\n\n"] *)
Definition blank_line : string := String "010" (String "010" "").

(** [format_error_message(errors)]; an error of the response is a
    dictionary of strings. *)
Definition format_error_message (errors : list (dict string)) : result string :=
  messages <- comprehension
                (fun error => dict_item error "detailed_message") errors ;;
  Ok (join blank_line messages).

End Errors.

(** ** Fields of the result columns *)

Module Fields.

(** Modelled from the spec: the field classes of
    [shillelagh.adapters.api.gsheets.fields], the filters of
    [shillelagh.filters] and [Order] of [shillelagh.fields] are not part of
    the source at hand; [get_field] only names them.  A field is described
    by the call that builds it: the class, or the class with a time zone
    bound by [partial], and the keyword arguments. *)
Inductive FieldClass : Type :=
| GSheetsBoolean
| GSheetsDate
| GSheetsDateTime
| GSheetsFloat
| GSheetsString
| GSheetsTime.

Inductive FilterClass : Type :=
| Equal
| Range.

Inductive Order : Type :=
| ANY.

Section GetField.

(** [datetime.tzinfo] *)
Variable tzinfo : Type.

Inductive Callable : Type :=
| Class (c : FieldClass)
| Partial (c : FieldClass) (timezone : option tzinfo).

Record Field : Type := mk_field {
  class_ : Callable;
  filters : list FilterClass;
  order : Order;
  exact : bool
}.

(** The dictionary [type_map] that [get_field] builds on each call. *)
Definition type_map (timezone : option tzinfo)
  : dict (Callable * list FilterClass) :=
  [("string", (Class GSheetsString, [Equal]));
   ("number", (Class GSheetsFloat, [Range]));
   ("boolean", (Class GSheetsBoolean, [Equal]));
   ("date", (Class GSheetsDate, [Range]));
   ("datetime", (Partial GSheetsDateTime timezone, [Range]));
   ("timeofday", (Class GSheetsTime, [Range]))].

(** [get_field(col, timezone)]; a column of the results is a dictionary of
    strings. *)
Definition get_field (col : dict string) (timezone : option tzinfo)
  : result Field :=
  type <- Errors.dict_item col "type" ;;
  let (class_, filters) :=
    match dict_get (type_map timezone) type with
    | Some entry => entry
    | None => (Class GSheetsString, [Equal])
    end in
  Ok (mk_field class_ filters ANY true).

End GetField.

Arguments Class {tzinfo} c.
Arguments Partial {tzinfo} c timezone.
Arguments class_ {tzinfo} f.
Arguments filters {tzinfo} f.
Arguments order {tzinfo} f.
Arguments exact {tzinfo} f.
Arguments mk_field {tzinfo} class_ filters order exact.
Arguments type_map {tzinfo} timezone.
Arguments get_field {tzinfo} col timezone.

End Fields.

(** ** Credentials *)

Module Auth.

(** Google API scopes for authentication *)
Definition SCOPES : list string :=
  ["https://www.googleapis.com/auth/drive.readonly";
   "https://www.googleapis.com/auth/spreadsheets";
   "https://spreadsheets.google.com/feeds"].

(** The credentials, described by the call of the Google library that
    builds them: [google.oauth2.credentials.Credentials(token)],
    [service_account.Credentials.from_service_account_file(...)] and
    [service_account.Credentials.from_service_account_info(...)].  What the
    library does in these calls is outside this module. *)
Inductive Credentials (Info : Type) : Type :=
| OAuth2Credentials (token : string)
| FromServiceAccountFile
    (filename : string) (scopes : list string) (subject : option string)
| FromServiceAccountInfo
    (info : Info) (scopes : list string) (subject : option string).

Arguments OAuth2Credentials {Info} token.
Arguments FromServiceAccountFile {Info} filename scopes subject.
Arguments FromServiceAccountInfo {Info} info scopes subject.

(** [if s:] for an optional string: neither [None] nor empty. *)
Definition str_given (s : option string) : option string :=
  match s with
  | Some (String c r) => Some (String c r)
  | _ => None
  end.

(** [if d:] for an optional dictionary: neither [None] nor empty. *)
Definition dict_given {V : Type} (d : option (dict V)) : option (dict V) :=
  match d with
  | Some (kv :: d') => Some (kv :: d')
  | _ => None
  end.

(** [get_credentials(access_token, service_account_file,
    service_account_info, subject)] *)
Definition get_credentials {V : Type}
    (access_token service_account_file : option string)
    (service_account_info : option (dict V))
    (subject : option string)
  : option (Credentials (dict V)) :=
  match str_given access_token with
  | Some token => Some (OAuth2Credentials token)
  | None =>
      match str_given service_account_file with
      | Some filename =>
          Some (FromServiceAccountFile filename SCOPES subject)
      | None =>
          match dict_given service_account_info with
          | Some info => Some (FromServiceAccountInfo info SCOPES subject)
          | None => None
          end
      end
  end.

End Auth.

(** ** Notions that the statements below use *)

Module Notions.

(** The digit of a letter: 1 for [A] up to 26 for [Z]. *)
Definition digit_of (letter : ascii) : result Z :=
  i <- str_index ascii_uppercase letter ;; Ok (Z.of_nat i + 1).

(** The value of a sequence of digits in base 26, most significant first. *)
Definition horner (digits : list Z) : Z :=
  fold_left (fun acc d => 26 * acc + d) digits 0.

(** The term of the sum in [get_index_from_letters]. *)
Definition weigh (iv : nat * Z) : Z :=
  snd iv * Z.of_nat (len ascii_uppercase) ^ Z.of_nat (fst iv).

(** The value of [k] digits 1: 0, 1, 27, 703, ... *)
Fixpoint ones (k : nat) : Z :=
  match k with
  | O => 0
  | S k' => 26 * ones k' + 1
  end.

(** A field whose serialization leaves the value as it is. *)
Definition raw_field : Row.Field := Row.mk_field (fun v => v).

(** The row once unformatted, when its keys are distinct: the items whose
    field has an entry in [columns], in order, each value serialized. *)
Definition unformat_items (row : dict Row.Any) (columns : dict Row.Field)
  : dict Row.Any :=
  flat_map
    (fun kv =>
       match dict_get columns (fst kv) with
       | Some field => [(fst kv, Row.to_unformatted field (snd kv))]
       | None => []
       end)
    row.

(** Scanning items in order, the value of the last one whose field the
    column map sends to [label]; [start] when there is none. *)
Definition last_labelled (column_map : dict string) (label : string)
    (items : dict Row.Any) (start : option Row.Any) : option Row.Any :=
  fold_left
    (fun cur kv =>
       match dict_get column_map (fst kv) with
       | Some l => if String.eqb l label then Some (snd kv) else cur
       | None => cur
       end)
    items start.

(** What [get_values_from_row] writes under [label]: the serialized value
    of the last item of the row, in its iteration order, whose field has an
    entry in [columns] and is sent to [label] by the column map; [None]
    when the row has no such item. *)
Definition written_at (row : dict Row.Any) (columns : dict Row.Field)
    (column_map : dict string) (label : string) : Row.Any :=
  match last_labelled column_map label (unformat_items row columns) None with
  | Some v => v
  | None => Row.PyNone
  end.

(** The value of the last pair named [name] in a list of parameters. *)
Definition last_param (name : string) (pairs : list (string * string))
  : option string :=
  fold_left
    (fun cur nv => if String.eqb (fst nv) name then Some (snd nv) else cur)
    pairs None.

(** The parameters of the query string of a parsed URL. *)
Definition query_param (name : string) (parts : Urllib.ParseResult)
  : option string :=
  last_param name (Urllib.parse_qsl (Urllib.query parts)).

(** The query of a URL that has no fragment: what follows its first
    question mark. *)
Definition query_of (url : string) : string :=
  match split1 "?" url with
  | Some (_, after) => after
  | None => ""
  end.

(** [s] is the literal of an integer: [int(s)] returns. *)
Definition is_int_literal (s : string) : bool :=
  match int s with
  | Ok _ => true
  | Raise _ => false
  end.

(** The network location of a parsed URL is ASCII text and holds no
    bracket: [urlsplit] checks nothing more of it. *)
Definition plain_netloc (parts : Urllib.ParseResult) : bool :=
  is_ascii (Urllib.netloc parts)
  && negb (contains (Urllib.netloc parts) "[")
  && negb (contains (Urllib.netloc parts) "]").

(** An integer of at most [int_max_str_digits] digits: [str] writes it. *)
Definition within_str_digits (z : Z) : bool :=
  Z.abs z <? 10 ^ int_max_str_digits.

(** [needle in s] for strings *)
Fixpoint occurs (needle s : string) : bool :=
  String.prefix needle s
  || match s with
     | EmptyString => false
     | String _ s' => occurs needle s'
     end.

(** The characters that [quote_plus] can produce. *)
Definition is_quoted_char (c : ascii) : bool :=
  Urllib.is_always_safe c || Ascii.eqb c "%" || Ascii.eqb c "+".

(** The characters of the decimal writing of an integer. *)
Definition is_int_char (c : ascii) : bool := is_digit c || Ascii.eqb c "-".

(** The characters that delimit the query and the fragment of a URL. *)
Definition is_delimiter (c : ascii) : bool := Ascii.eqb c "?" || Ascii.eqb c "#".

(** No character of [s] delimits a query or a fragment. *)
Definition undelimited (s : string) : bool :=
  all_chars (fun c => negb (is_delimiter c)) s.

(** A rank of strings by their first character: 0 for the empty string,
    one more than the code of the first character otherwise.  The greater
    of two strings has the greater or the same rank. *)
Definition head_rank (s : string) : nat :=
  match s with
  | EmptyString => 0%nat
  | String c _ => S (code c)
  end.

(** The column map gives no two fields the same label. *)
Definition collision_free (column_map : dict string) : Prop :=
  forall k1 k2 label,
    dict_get column_map k1 = Some label ->
    dict_get column_map k2 = Some label ->
    k1 = k2.

(** The item of a row goes under [label]: its field has an entry in
    [columns] and the column map sends it to [label]. *)
Definition goes_under (columns : dict Row.Field) (column_map : dict string)
    (label : string) (kv : string * Row.Any) : bool :=
  match dict_get columns (fst kv), dict_get column_map (fst kv) with
  | Some _, Some l => String.eqb l label
  | _, _ => false
  end.

(** The string is empty or starts with a character that [allowed]
    accepts. *)
Definition starts_in (allowed : ascii -> bool) (s : string) : bool :=
  match s with
  | EmptyString => true
  | String c _ => allowed c
  end.

(** The path is empty or starts with a slash. *)
Definition rooted (s : string) : bool := starts_in (Ascii.eqb "/") s.

(** What [quote] writes for one character. *)
Definition quote_piece (safe : string) (c : ascii) : string :=
  if Urllib.is_always_safe c || contains safe c then String c ""
  else Urllib.percent c.

(** An optional string that is absent or empty. *)
Definition str_missing (s : option string) : Prop := s = None \/ s = Some "".

(** An optional dictionary that is absent or empty. *)
Definition dict_missing {V : Type} (d : option (dict V)) : Prop :=
  d = None \/ d = Some [].

(** The column types that [get_field] knows as ordered kinds. *)
Definition ranged_types : list string :=
  ["number"; "date"; "datetime"; "timeofday"].

End Notions.

Import Notions.

(** * Properties *)

(** ** The error monad *)

Lemma bind_ok {A B : Type} (r : result A) (k : A -> result B) (b : B) :
  bind r k = Ok b -> exists a, r = Ok a /\ k a = Ok b.
Proof.
  destruct r as [a | e]; simpl; intros H.
  - exists a. split; [reflexivity | exact H].
  - discriminate H.
Qed.

(** ** Column address codec *)

Section CodecFacts.

Import Codec.

Local Open Scope nat_scope.
Local Open Scope list_scope.

Lemma set_last_app {A : Type} (l : list A) (x y : A) :
  set_last (l ++ [x]) y = l ++ [y].
Proof.
  induction l as [| a l IH]; [reflexivity |].
  change (set_last (a :: (l ++ [x])) y = a :: (l ++ [y])).
  rewrite <- IH.
  destruct l; reflexivity.
Qed.

Lemma repeat_snoc {A : Type} (a : A) (k : nat) :
  repeat a k ++ [a] = a :: repeat a k.
Proof.
  induction k as [| k IH]; simpl; [reflexivity | now rewrite IH].
Qed.

Lemma succ_div_mod (n : nat) :
  (n mod 26 = 25 /\ S n mod 26 = 0 /\ S n / 26 = S (n / 26))
  \/ (n mod 26 < 25 /\ S n mod 26 = S (n mod 26) /\ S n / 26 = n / 26).
Proof.
  pose proof (Nat.div_mod_eq n 26) as Hn.
  pose proof (Nat.mod_upper_bound n 26 ltac:(discriminate)) as Hlt.
  destruct (Nat.eq_dec (n mod 26) 25) as [E | NE]; [left | right].
  - assert (S n = 26 * S (n / 26) + 0) as H by lia.
    split; [exact E |].
    symmetry in H.
    destruct (Nat.div_mod_unique 26 (S n / 26) (S (n / 26)) (S n mod 26) 0) as [Hq Hr].
    + apply Nat.mod_upper_bound; discriminate.
    + lia.
    + rewrite H. symmetry. apply Nat.div_mod_eq.
    + split; assumption.
  - assert (S n = 26 * (n / 26) + S (n mod 26)) as H by lia.
    split; [lia |].
    symmetry in H.
    destruct (Nat.div_mod_unique 26 (S n / 26) (n / 26) (S n mod 26) (S (n mod 26))) as [Hq Hr].
    + apply Nat.mod_upper_bound; discriminate.
    + lia.
    + rewrite H. symmetry. apply Nat.div_mod_eq.
    + split; assumption.
Qed.

(** What the generator holds at its [n]-th [yield]: only the last letter
    ever changes, and every overflow appends one more ["A"]. *)
Lemma gen_at_closed (n : nat) :
  gen_at n =
  mk_gen (repeat "A"%char (n / 26) ++ [str_item ascii_uppercase (n mod 26)])
         (n mod 26).
Proof.
  induction n as [| n IH]; [reflexivity |].
  change (gen_at (S n)) with (gen_resume (gen_at n)).
  rewrite IH. unfold gen_resume. cbn [letters index].
  rewrite !set_last_app.
  change (len ascii_uppercase) with 26.
  destruct (succ_div_mod n) as [(Hm & Hm' & Hd') | (Hm & Hm' & Hd')];
    rewrite Hm', Hd'.
  - rewrite Hm. cbn [Nat.eqb].
    change (str_item ascii_uppercase 0) with "A"%char.
    rewrite repeat_snoc. reflexivity.
  - destruct (Nat.eqb_spec (S (n mod 26)) 26) as [E | _]; [lia | reflexivity].
Qed.

(** The list [letters] is never empty and [index] stays below 26: the
    [IndexError] of [letters[-1]] and of [ascii_uppercase[index]] cannot
    occur. *)
Lemma gen_letters_nonempty (n : nat) : letters (gen_at n) <> [].
Proof.
  rewrite gen_at_closed. cbn [letters].
  destruct (repeat "A"%char (n / 26)); discriminate.
Qed.

Lemma gen_index_bound (n : nat) : index (gen_at n) < 26.
Proof.
  rewrite gen_at_closed. cbn [index].
  apply Nat.mod_upper_bound. discriminate.
Qed.

Lemma gen_letters_closed (n : nat) :
  gen_letters n =
  string_of_list_ascii
    (repeat "A"%char (n / 26) ++ [str_item ascii_uppercase (n mod 26)]).
Proof. unfold gen_letters, gen_yield. now rewrite gen_at_closed. Qed.

Local Open Scope Z_scope.

Lemma upper_case_analysis (P : ascii -> Prop) :
  (forall i : nat, (i < 26)%nat -> P (ascii_of_nat (65 + i))) ->
  forall c, is_upper c = true -> P c.
Proof.
  intros H c Hc.
  unfold is_upper, between, code in Hc.
  apply andb_true_iff in Hc. destruct Hc as [Hlo Hhi].
  apply Nat.leb_le in Hlo, Hhi.
  change (nat_of_ascii "A") with 65%nat in Hlo.
  change (nat_of_ascii "Z") with 90%nat in Hhi.
  rewrite <- (ascii_nat_embedding c).
  replace (nat_of_ascii c) with (65 + (nat_of_ascii c - 65))%nat by lia.
  apply H. lia.
Qed.

Lemma digit_of_upper (c : ascii) :
  is_upper c = true ->
  digit_of c = Ok (Z.of_nat (code c) - 64) /\ 65 <= Z.of_nat (code c) <= 90.
Proof.
  revert c. apply upper_case_analysis. intros i Hi.
  do 26 (destruct i as [| i]; [vm_compute; repeat split; congruence |]).
  lia.
Qed.

Lemma digit_of_item (r : nat) :
  (r < 26)%nat -> digit_of (str_item ascii_uppercase r) = Ok (Z.of_nat r + 1).
Proof.
  intros Hr.
  do 26 (destruct r as [| r]; [reflexivity |]).
  lia.
Qed.

Lemma comprehension_app {A B : Type} (f : A -> result B) (l1 l2 : list A) ys1 ys2 :
  comprehension f l1 = Ok ys1 -> comprehension f l2 = Ok ys2 ->
  comprehension f (l1 ++ l2) = Ok (ys1 ++ ys2).
Proof.
  revert ys1. induction l1 as [| x l1 IH]; simpl; intros ys1 H1 H2.
  - injection H1 as <-. exact H2.
  - destruct (f x) as [y | e]; simpl in *; [| discriminate].
    destruct (comprehension f l1) as [ys | e]; simpl in *; [| discriminate].
    injection H1 as <-.
    rewrite (IH ys eq_refl H2). reflexivity.
Qed.

Lemma comprehension_total {A B : Type} (f : A -> result B) (l : list A) :
  Forall (fun x => exists y, f x = Ok y) l ->
  exists ys, comprehension f l = Ok ys /\ List.length ys = List.length l.
Proof.
  induction 1 as [| x l [y Hy] _ [ys [Hys Hlen]]]; simpl.
  - exists []. split; reflexivity.
  - rewrite Hy, Hys. simpl. exists (y :: ys). split; [reflexivity | simpl; congruence].
Qed.

Lemma comprehension_repeat_A (k : nat) :
  comprehension digit_of (repeat "A"%char k) = Ok (repeat 1 k).
Proof.
  induction k as [| k IH]; [reflexivity |].
  cbn [repeat comprehension]. rewrite IH. reflexivity.
Qed.

Lemma fold_add_from (l : list Z) (a : Z) :
  fold_left Z.add l a = a + fold_left Z.add l 0.
Proof.
  revert a. induction l as [| y l IH]; intros a; cbn [fold_left]; [lia |].
  rewrite (IH (a + y)), (IH (0 + y)). lia.
Qed.

Lemma sum_cons (x : Z) (l : list Z) : sum (x :: l) = x + sum l.
Proof. unfold sum. cbn [fold_left]. apply fold_add_from. Qed.

Lemma sum_weigh_shift (l : list Z) (a : nat) :
  sum (map weigh (combine (seq (S a) (List.length l)) l)) =
  26 * sum (map weigh (combine (seq a (List.length l)) l)).
Proof.
  revert a. induction l as [| v l IH]; intros a; [reflexivity |].
  cbn [List.length seq combine map]. rewrite !sum_cons, IH.
  unfold weigh at 1 3. cbn [fst snd].
  change (Z.of_nat (len ascii_uppercase)) with 26.
  rewrite Nat2Z.inj_succ, Z.pow_succ_r by lia. lia.
Qed.

Lemma sum_weigh_horner (digits : list Z) :
  sum (map weigh (enumerate (rev digits))) = horner digits.
Proof.
  induction digits as [| d digits IH] using rev_ind; [reflexivity |].
  unfold horner. rewrite rev_app_distr, fold_left_app. cbn [rev app fold_left].
  fold (horner digits). rewrite <- IH.
  unfold enumerate. cbn [List.length seq combine map].
  rewrite sum_cons, sum_weigh_shift.
  unfold weigh at 1. cbn [fst snd]. rewrite Z.pow_0_r. lia.
Qed.

(** The decoder is the positional value in bijective base 26, less one. *)
Lemma get_index_from_letters_horner (s : string) (digits : list Z) :
  comprehension digit_of (list_ascii_of_string s) = Ok digits ->
  get_index_from_letters s = Ok (horner digits - 1).
Proof.
  intros H. unfold get_index_from_letters.
  fold digit_of. rewrite H. cbn [bind].
  fold weigh. rewrite sum_weigh_horner. reflexivity.
Qed.

Lemma horner_ones (k : nat) : horner (repeat 1 k) = ones k.
Proof.
  induction k as [| k IH]; [reflexivity |].
  replace (repeat 1 (S k)) with (repeat 1 k ++ [1])
    by (rewrite repeat_snoc; reflexivity).
  unfold horner. rewrite fold_left_app. cbn [fold_left].
  fold (horner (repeat 1 k)). rewrite IH. reflexivity.
Qed.

Lemma ones_grows (k : nat) : (2 <= k)%nat -> Z.of_nat k < ones k.
Proof.
  induction k as [| k IH]; [lia |].
  intros Hk. destruct (Nat.eq_dec k 1) as [-> | NE]; [reflexivity |].
  cbn [ones]. specialize (IH ltac:(lia)). lia.
Qed.

(** What the decoder returns on the [n]-th label of the generator. *)
Lemma decode_gen_letters (n : nat) :
  get_index_from_letters (gen_letters n) =
  Ok (26 * ones (n / 26) + Z.of_nat (n mod 26)).
Proof.
  rewrite gen_letters_closed.
  rewrite (get_index_from_letters_horner _
             (repeat 1 (n / 26) ++ [Z.of_nat (n mod 26) + 1])).
  - unfold horner. rewrite fold_left_app. cbn [fold_left].
    fold (horner (repeat 1 (n / 26))). rewrite horner_ones. f_equal. lia.
  - rewrite list_ascii_of_string_of_list_ascii.
    apply comprehension_app; [apply comprehension_repeat_A |].
    cbn [comprehension]. rewrite digit_of_item; [reflexivity |].
    apply Nat.mod_upper_bound. discriminate.
Qed.

(** The decoder undoes the generator on the first 52 labels and on no
    other. *)
Lemma decode_gen_letters_iff (n : nat) :
  get_index_from_letters (gen_letters n) = Ok (Z.of_nat n) <-> (n < 52)%nat.
Proof.
  rewrite decode_gen_letters.
  pose proof (Nat.div_mod_eq n 26) as Hn.
  pose proof (Nat.mod_upper_bound n 26 ltac:(discriminate)) as Hlt.
  split.
  - intros H.
    assert (26 * ones (n / 26) + Z.of_nat (n mod 26) = Z.of_nat n) as H'
      by congruence.
    destruct (Nat.lt_ge_cases (n / 26) 2) as [Hk | Hk]; [lia |].
    pose proof (ones_grows _ Hk). lia.
  - intros H. f_equal.
    assert (n / 26 = 0 \/ n / 26 = 1)%nat as [E | E] by lia;
      rewrite E; cbn [ones]; lia.
Qed.

Lemma all_chars_Forall (p : ascii -> bool) (s : string) :
  all_chars p s = true -> Forall (fun c => p c = true) (list_ascii_of_string s).
Proof.
  induction s as [| c s IH]; simpl; intros H; constructor.
  - apply andb_true_iff in H. tauto.
  - apply IH. apply andb_true_iff in H. tauto.
Qed.

(** C1, as the code behaves.  The generator yields "A" to "Z" and "AA" to
    "AZ" at the indices 0 to 51; at index 52, where bijective base 26 has
    "BA", it yields "AAA", having rewritten only its last letter and appended
    an "A"; nor does it yield "ZZ" at 701 or "AAA" at 702. *)
Theorem gen_letters_second_rollover :
  map gen_letters (seq 0 52) =
    ["A"; "B"; "C"; "D"; "E"; "F"; "G"; "H"; "I"; "J"; "K"; "L"; "M";
     "N"; "O"; "P"; "Q"; "R"; "S"; "T"; "U"; "V"; "W"; "X"; "Y"; "Z";
     "AA"; "AB"; "AC"; "AD"; "AE"; "AF"; "AG"; "AH"; "AI"; "AJ"; "AK";
     "AL"; "AM"; "AN"; "AO"; "AP"; "AQ"; "AR"; "AS"; "AT"; "AU"; "AV";
     "AW"; "AX"; "AY"; "AZ"]%string
  /\ gen_letters 52 = "AAA"%string
  /\ gen_letters 52 <> "BA"%string
  /\ gen_letters 701 <> "ZZ"%string
  /\ gen_letters 702 <> "AAA"%string.
Proof.
  repeat split; try reflexivity; vm_compute; discriminate.
Qed.

(** C2, as the code behaves.  The decoder applied to the label that the
    generator yields at index 52 returns 702, not 52: the round trip of
    the codec breaks inside the interval from 0 to 20000. *)
Theorem decode_gen_letters_52 :
  0 <= Z.of_nat 52 <= 20000
  /\ get_index_from_letters (gen_letters 52) = Ok 702
  /\ get_index_from_letters (gen_letters 52) <> Ok 52.
Proof.
  split; [lia |].
  rewrite decode_gen_letters.
  split; [reflexivity | vm_compute; discriminate].
Qed.

(** C10.  On every string of uppercase letters the decoder returns an
    integer and raises nothing; on the empty string it returns -1. *)
Theorem get_index_from_letters_total (letters : string) :
  all_chars is_upper letters = true ->
  exists z, get_index_from_letters letters = Ok z
            /\ (letters = ""%string -> z = -1).
Proof.
  intros Hup.
  destruct (comprehension_total digit_of (list_ascii_of_string letters))
    as (digits & Hd & _).
  { eapply Forall_impl; [| apply all_chars_Forall, Hup].
    intros c Hc. destruct (digit_of_upper c Hc) as [E _]. eauto. }
  exists (horner digits - 1). split.
  - apply get_index_from_letters_horner, Hd.
  - intros ->. simpl in Hd. injection Hd as <-. reflexivity.
Qed.

Lemma get_index_from_letters_total_witness :
  exists z, get_index_from_letters "" = Ok z /\ (""%string = ""%string -> z = -1).
Proof.
  apply (get_index_from_letters_total ""). reflexivity.
Defined.

End CodecFacts.

(** ** Dictionaries *)

Section DictFacts.

Context {V : Type}.

Local Open Scope list_scope.

Lemma dict_get_set (d : dict V) (k k' : string) (v : V) :
  dict_get (dict_set d k v) k' =
  if String.eqb k k' then Some v else dict_get d k'.
Proof.
  induction d as [| [k0 v0] d IH]; simpl.
  - reflexivity.
  - destruct (String.eqb_spec k0 k) as [-> | NE]; simpl.
    + destruct (String.eqb k k'); reflexivity.
    + rewrite IH.
      destruct (String.eqb_spec k0 k') as [-> | NE'].
      * destruct (String.eqb_spec k k') as [-> | _]; [congruence | reflexivity].
      * reflexivity.
Qed.

Lemma dict_set_fresh (d : dict V) (k : string) (v : V) :
  ~ In k (dict_keys d) -> dict_set d k v = d ++ [(k, v)].
Proof.
  induction d as [| [k0 v0] d IH]; simpl; intros H; [reflexivity |].
  destruct (String.eqb_spec k0 k) as [-> | NE]; [tauto |].
  rewrite IH by tauto. reflexivity.
Qed.

Lemma dict_keys_app (d1 d2 : dict V) :
  dict_keys (d1 ++ d2) = dict_keys d1 ++ dict_keys d2.
Proof. apply map_app. Qed.

End DictFacts.

(** ** Row materializer *)

Section RowFacts.

Import Codec Row.

Local Open Scope list_scope.

Variables (columns : dict Field) (column_map : dict string).

Lemma unformat_row_from (row acc : dict Any) :
  NoDup (dict_keys row) ->
  (forall k, In k (dict_keys row) -> ~ In k (dict_keys acc)) ->
  fold_left
    (fun acc kv =>
       match dict_get columns (fst kv) with
       | Some field => dict_set acc (fst kv) (to_unformatted field (snd kv))
       | None => acc
       end)
    row acc
  = acc ++ unformat_items row columns.
Proof.
  revert acc. induction row as [| [k v] row IH]; intros acc Hnd Hfresh.
  - simpl. now rewrite app_nil_r.
  - cbn [fold_left fst snd]. simpl in Hnd. inversion Hnd as [| ? ? Hk Hnd']; subst.
    unfold unformat_items. cbn [flat_map fst snd]. fold (unformat_items row columns).
    destruct (dict_get columns k) as [field |].
    + rewrite dict_set_fresh by (apply Hfresh; simpl; tauto).
      rewrite IH; [now rewrite <- app_assoc | exact Hnd' |].
      intros k' Hk'. rewrite dict_keys_app. simpl. rewrite in_app_iff. simpl.
      intros [H | [H | []]].
      * apply (Hfresh k'); simpl; tauto.
      * congruence.
    + apply IH; [exact Hnd' |].
      intros k' Hk'. apply Hfresh. simpl. tauto.
Qed.

(** A row whose keys are distinct, as those of a dictionary are, keeps its
    order when unformatted. *)
Lemma unformat_row_items (row : dict Any) :
  NoDup (dict_keys row) -> unformat_row row columns = unformat_items row columns.
Proof.
  intros Hnd. unfold unformat_row.
  rewrite unformat_row_from; [reflexivity | exact Hnd | intros k _ []].
Qed.

Lemma relabel_row_from (items acc : dict Any) (label : string) :
  dict_get
    (fold_left
       (fun acc kv =>
          match dict_get column_map (fst kv) with
          | Some label => dict_set acc label (snd kv)
          | None => acc
          end)
       items acc)
    label
  = last_labelled column_map label items (dict_get acc label).
Proof.
  revert acc. induction items as [| [k v] items IH]; intros acc; [reflexivity |].
  unfold last_labelled. cbn [fold_left fst snd].
  fold (last_labelled column_map label items).
  rewrite IH.
  destruct (dict_get column_map k) as [l |]; [| reflexivity].
  rewrite dict_get_set. reflexivity.
Qed.

(** Under a label, the relabelled row holds the value written last. *)
Lemma row_get_written (row : dict Any) (label : string) :
  NoDup (dict_keys row) ->
  row_get (relabel_row (unformat_row row columns) column_map) label
  = written_at row columns column_map label.
Proof.
  intros Hnd. unfold row_get, relabel_row, written_at.
  rewrite relabel_row_from, unformat_row_items by exact Hnd.
  reflexivity.
Qed.

(** The last item of the row that goes under a label decides what is
    written there. *)
Lemma written_at_last (row : dict Any) (k label : string) (v : Any) (field : Field) :
  dict_get columns k = Some field ->
  dict_get column_map k = Some label ->
  written_at (row ++ [(k, v)]) columns column_map label
  = to_unformatted field v.
Proof.
  intros Hf Hl. unfold written_at, unformat_items, last_labelled.
  rewrite flat_map_app, fold_left_app. cbn [flat_map fst snd].
  rewrite Hf. cbn [app fold_left fst snd].
  now rewrite Hl, String.eqb_refl.
Qed.

Lemma islice_from_gen_at (a n : nat) :
  islice_from (gen_at a) n = map gen_letters (seq a n).
Proof.
  revert a. induction n as [| n IH]; intros a; [reflexivity |].
  cbn [islice_from seq map]. f_equal. exact (IH (S a)).
Qed.

Lemma digit_of_raises (c : ascii) (e : exn) : digit_of c = Raise e -> e = ValueError.
Proof.
  unfold digit_of.
  assert (forall s, str_index s c = Raise e -> e = ValueError) as H.
  { induction s as [| d s IH]; simpl.
    - congruence.
    - destruct (Ascii.eqb d c); [discriminate |].
      destruct (str_index s c); simpl; [discriminate | exact IH]. }
  destruct (str_index ascii_uppercase c) eqn:E; simpl; [discriminate |].
  intros H'. injection H' as ->. exact (H _ E).
Qed.

Lemma get_index_from_letters_raises (s : string) (e : exn) :
  get_index_from_letters s = Raise e -> e = ValueError.
Proof.
  unfold get_index_from_letters. fold digit_of.
  induction (list_ascii_of_string s) as [| c l IH]; simpl; [discriminate |].
  destruct (digit_of c) as [d | e'] eqn:E; simpl.
  - destruct (comprehension digit_of l) as [ds | e'']; simpl in *;
      [discriminate | exact IH].
  - intros H. injection H as <-. exact (digit_of_raises _ _ E).
Qed.

Lemma get_values_from_row_raises
    (row : dict Any) (e : exn) :
  get_values_from_row row columns column_map = Raise e -> e = ValueError.
Proof.
  unfold get_values_from_row.
  destruct (dict_values column_map) as [| x l]; simpl; [congruence |].
  destruct (get_index_from_letters _) as [last_index | e'] eqn:E; simpl.
  - unfold islice_gen_letters.
    destruct ((last_index + 1 <? 0) || (maxsize <? last_index + 1))%Z; simpl;
      [congruence | discriminate].
  - intros H. injection H as <-. exact (get_index_from_letters_raises _ _ E).
Qed.

Lemma horner_nonneg (digits : list Z) :
  Forall (fun d => 0 <= d)%Z digits -> (0 <= horner digits)%Z.
Proof.
  induction digits as [| d digits IH] using rev_ind; intros H; [cbn; lia |].
  apply Forall_app in H. destruct H as [H Hd].
  inversion Hd as [| ? ? Hd0 _]; subst. specialize (IH H).
  unfold horner in *. rewrite fold_left_app. cbn [fold_left]. lia.
Qed.

Lemma comprehension_digit_of_nonneg (l : list ascii) (digits : list Z) :
  comprehension digit_of l = Ok digits -> Forall (fun d => 0 <= d)%Z digits.
Proof.
  revert digits. induction l as [| c l IH]; simpl; intros digits H.
  - injection H as <-. constructor.
  - apply bind_ok in H. destruct H as (d & Hd & H).
    apply bind_ok in H. destruct H as (ds & Hds & H). injection H as <-.
    constructor; [| exact (IH ds Hds)].
    unfold digit_of in Hd. apply bind_ok in Hd. destruct Hd as (i & _ & Hd).
    injection Hd as <-. lia.
Qed.

(** The least index is that of the empty label. *)
Lemma get_index_from_letters_lower (s : string) (z : Z) :
  get_index_from_letters s = Ok z -> (-1 <= z)%Z.
Proof.
  intros H. unfold get_index_from_letters in H. fold digit_of in H.
  apply bind_ok in H. destruct H as (digits & Hd & Hz).
  fold weigh in Hz. rewrite sum_weigh_horner in Hz.
  apply comprehension_digit_of_nonneg, horner_nonneg in Hd.
  assert (z = horner digits - 1)%Z by congruence. lia.
Qed.

(** What a call with a non-empty column map does is decided by the
    greatest label of the map alone. *)
Lemma get_values_from_row_outcome (row : dict Any) (top : string) :
  NoDup (dict_keys row) ->
  str_max (dict_values column_map) = Ok top ->
  get_values_from_row row columns column_map
  = match get_index_from_letters top with
    | Ok last_index =>
        if (last_index + 1 <=? maxsize)%Z
        then Ok (map (fun i => written_at row columns column_map (gen_letters i))
                     (seq 0 (Z.to_nat (last_index + 1))))
        else Raise ValueError
    | Raise _ => Raise ValueError
    end.
Proof.
  intros Hnd Htop. unfold get_values_from_row. rewrite Htop. cbn [bind].
  destruct (get_index_from_letters top) as [z | e] eqn:E; cbn [bind].
  - apply get_index_from_letters_lower in E.
    unfold islice_gen_letters.
    destruct (Z.ltb_spec (z + 1) 0) as [Hneg | _]; [lia |].
    destruct (Z.ltb_spec maxsize (z + 1)) as [Hbig | Hfit];
      destruct (Z.leb_spec (z + 1) maxsize) as [Hfit' | Hbig'];
      try lia; cbn [orb bind]; [reflexivity |].
    f_equal. change gen_start with (gen_at 0).
    rewrite islice_from_gen_at, map_map.
    apply map_ext. intros i. apply row_get_written, Hnd.
  - now rewrite (get_index_from_letters_raises _ _ E).
Qed.

End RowFacts.

Section RowClaims.

Import Codec Row.

Local Open Scope list_scope.

(** C3, as the code behaves.  The example of the documentation holds:
    the column map country -> A, cnt -> C and the row country = "BR",
    cnt = 10 give ["BR", None, 10].  But a field mapped to the letter
    "BA", whose index is 52, is lost: the result has 53 positions, all of
    them [None], because the generator never yields "BA".  And with the
    letters "Z" and "AA" the width is taken from "Z", the greater of the
    two as strings: the result has 26 positions and none for "AA", whose
    index is 26. *)
Theorem get_values_from_row_misplaces :
  get_values_from_row
    [("country", PyStr "BR"); ("cnt", PyInt 10)]
    [("country", raw_field); ("cnt", raw_field)]
    [("country", "A"); ("cnt", "C")]
  = Ok [PyStr "BR"; PyNone; PyInt 10]
  /\ get_index_from_letters "BA" = Ok 52
  /\ get_values_from_row
       [("x", PyInt 10)] [("x", raw_field)] [("x", "BA")]
     = Ok (repeat PyNone 53)
  /\ get_index_from_letters "AA" = Ok 26
  /\ get_values_from_row
       [("a", PyStr "BR"); ("b", PyInt 10)]
       [("a", raw_field); ("b", raw_field)]
       [("a", "Z"); ("b", "AA")]
     = Ok (repeat PyNone 25 ++ [PyStr "BR"]).
Proof.
  repeat split; vm_compute; reflexivity.
Qed.

(** C4, refuted.  The two distinct fields a and b both map to the letter
    A: the call is not rejected, it returns a one-element list in which
    the value of b has overwritten the value of a. *)
Lemma get_values_from_row_collision :
  let row := [("a", PyStr "x"); ("b", PyStr "y")] in
  let columns := [("a", raw_field); ("b", raw_field)] in
  let column_map := [("a", "A"); ("b", "A")]%string in
  "a"%string <> "b"%string
  /\ dict_get column_map "a" = dict_get column_map "b"
  /\ get_values_from_row row columns column_map = Ok [PyStr "y"]
  /\ ~ (exists e, get_values_from_row row columns column_map = Raise e).
Proof.
  cbv zeta. repeat split.
  - discriminate.
  - intros [e H]. vm_compute in H. discriminate.
Qed.

(** C4, amended.  [get_values_from_row] does not validate the column map.
    With an empty column map it fails with the [ValueError] of [max] on an
    empty sequence; whatever it raises is a [ValueError], never a
    configuration error.  With a non-empty column map the greatest label
    of the map under string comparison decides alone: the call returns
    when that label is made of uppercase letters and its index plus one is
    at most [sys.maxsize], and raises [ValueError] otherwise.  So two
    distinct fields that share a letter do not make the call fail; and in
    the list that is returned the position of each label that the
    generator yields holds the value written last under that label, in the
    iteration order of the row: of the fields that share a letter, the
    last one of the row overwrites the others. *)
Theorem get_values_from_row_unvalidated
    (row : dict Any) (columns : dict Field) (column_map : dict string) :
  NoDup (dict_keys row) ->
  (column_map = [] ->
   get_values_from_row row columns column_map = Raise ValueError)
  /\ (forall e, get_values_from_row row columns column_map = Raise e ->
                e = ValueError)
  /\ (forall top,
        str_max (dict_values column_map) = Ok top ->
        get_values_from_row row columns column_map
        = match get_index_from_letters top with
          | Ok last_index =>
              if (last_index + 1 <=? maxsize)%Z
              then Ok (map (fun i =>
                              written_at row columns column_map (gen_letters i))
                           (seq 0 (Z.to_nat (last_index + 1))))
              else Raise ValueError
          | Raise _ => Raise ValueError
          end)
  /\ (forall k1 k2 label top last_index,
        k1 <> k2 ->
        dict_get column_map k1 = Some label ->
        dict_get column_map k2 = Some label ->
        str_max (dict_values column_map) = Ok top ->
        get_index_from_letters top = Ok last_index ->
        (last_index + 1 <= maxsize)%Z ->
        exists values,
          get_values_from_row row columns column_map = Ok values
          /\ List.length values = Z.to_nat (last_index + 1))
  /\ (forall items k v field label,
        row = items ++ [(k, v)] ->
        dict_get columns k = Some field ->
        dict_get column_map k = Some label ->
        written_at row columns column_map label = to_unformatted field v).
Proof.
  intros Hnd. split; [| split; [| split; [| split]]].
  - intros ->. reflexivity.
  - apply get_values_from_row_raises.
  - intros top. apply get_values_from_row_outcome, Hnd.
  - intros k1 k2 label top z _ _ _ Htop Hz Hfit.
    rewrite (get_values_from_row_outcome columns column_map row top Hnd Htop), Hz.
    destruct (Z.leb_spec (z + 1) maxsize) as [_ | Hbig]; [| lia].
    eexists. split; [reflexivity |].
    now rewrite length_map, length_seq.
  - intros items k v field label ->. apply written_at_last.
Qed.

Lemma get_values_from_row_unvalidated_witness :
  NoDup (dict_keys [("a", PyStr "x"); ("b", PyStr "y")])
  /\ get_values_from_row
       [("a", PyStr "x"); ("b", PyStr "y")]
       [("a", raw_field); ("b", raw_field)]
       [("a", "A"); ("b", "A")]%string
     = Ok [PyStr "y"]
  /\ get_values_from_row
       [("a", PyStr "x"); ("b", PyStr "y")]
       [("a", raw_field); ("b", raw_field)]
       [("a", "A"); ("b", "A"); ("c", "a")]%string
     = Raise ValueError
  /\ get_values_from_row
       [("a", PyStr "x"); ("b", PyStr "y")]
       [("a", raw_field); ("b", raw_field)] []
     = Raise ValueError.
Proof.
  assert (NoDup (dict_keys [("a", PyStr "x"); ("b", PyStr "y")])) as Hnd.
  { repeat constructor; simpl; intuition discriminate. }
  split; [exact Hnd |]. split; [| split].
  - destruct (get_values_from_row_unvalidated
                [("a", PyStr "x"); ("b", PyStr "y")]
                [("a", raw_field); ("b", raw_field)]
                [("a", "A"); ("b", "A")]%string Hnd) as (_ & _ & H & _).
    rewrite (H "A"%string eq_refl). reflexivity.
  - destruct (get_values_from_row_unvalidated
                [("a", PyStr "x"); ("b", PyStr "y")]
                [("a", raw_field); ("b", raw_field)]
                [("a", "A"); ("b", "A"); ("c", "a")]%string Hnd)
      as (_ & _ & H & _).
    rewrite (H "a"%string eq_refl). reflexivity.
  - apply (get_values_from_row_unvalidated _ _ [] Hnd). reflexivity.
Defined.

End RowClaims.

(** ** Strings *)

Section StringFacts.

Lemma app_assoc_str (a b c : string) : ((a ++ b) ++ c = a ++ b ++ c)%string.
Proof. induction a as [| d a IH]; simpl; [reflexivity | now rewrite IH]. Qed.

Lemma all_chars_app (p : ascii -> bool) (a b : string) :
  all_chars p (a ++ b) = all_chars p a && all_chars p b.
Proof.
  induction a as [| d a IH]; simpl; [reflexivity |].
  rewrite IH. apply andb_assoc.
Qed.

Lemma all_chars_impl (p q : ascii -> bool) (s : string) :
  (forall c, p c = true -> q c = true) ->
  all_chars p s = true -> all_chars q s = true.
Proof.
  intros Hpq. induction s as [| d s IH]; simpl; [reflexivity |].
  rewrite !andb_true_iff. intros [Hd Hs]. auto.
Qed.

Lemma all_chars_map (p q : ascii -> bool) (f : ascii -> ascii) (s : string) :
  (forall c, p c = true -> q (f c) = true) ->
  all_chars p s = true -> all_chars q (map_chars f s) = true.
Proof.
  intros Hpq. induction s as [| d s IH]; simpl; [reflexivity |].
  rewrite !andb_true_iff. intros [Hd Hs]. auto.
Qed.

(** A string is free of [c] when none of its characters is [c]. *)
Lemma contains_all_chars (s : string) (c : ascii) :
  contains s c = false <-> all_chars (fun d => negb (Ascii.eqb d c)) s = true.
Proof.
  induction s as [| d s IH]; simpl; [tauto |].
  rewrite orb_false_iff, andb_true_iff, negb_true_iff, IH. tauto.
Qed.

Lemma contains_app (a b : string) (c : ascii) :
  contains (a ++ b) c = contains a c || contains b c.
Proof.
  induction a as [| d a IH]; simpl; [reflexivity |].
  rewrite IH. apply orb_assoc.
Qed.

Lemma all_chars_free (p : ascii -> bool) (s : string) (c : ascii) :
  p c = false -> all_chars p s = true -> contains s c = false.
Proof.
  intros Hc Hs. apply contains_all_chars.
  revert Hs. apply all_chars_impl. intros d Hd.
  destruct (Ascii.eqb_spec d c) as [-> | _]; [congruence | reflexivity].
Qed.

Lemma split_free (c : ascii) (s : string) :
  contains s c = false -> split c s = [s].
Proof.
  induction s as [| d s IH]; simpl; [reflexivity |].
  destruct (Ascii.eqb d c); simpl; [discriminate |].
  intros H. rewrite (IH H). reflexivity.
Qed.

Lemma split_app (c : ascii) (a b : string) :
  contains a c = false -> split c (a ++ String c b) = a :: split c b.
Proof.
  induction a as [| d a IH]; simpl.
  - intros _. rewrite Ascii.eqb_refl. reflexivity.
  - destruct (Ascii.eqb d c); simpl; [discriminate |].
    intros H. rewrite (IH H). reflexivity.
Qed.

Lemma split1_app (c : ascii) (a b : string) :
  contains a c = false -> split1 c (a ++ String c b) = Some (a, b).
Proof.
  induction a as [| d a IH]; simpl.
  - intros _. rewrite Ascii.eqb_refl. reflexivity.
  - destruct (Ascii.eqb d c); simpl; [discriminate |].
    intros H. rewrite (IH H). reflexivity.
Qed.

Lemma split1_some (c : ascii) (s before after : string) :
  split1 c s = Some (before, after) ->
  s = before ++ String c after /\ contains before c = false.
Proof.
  revert before. induction s as [| d s IH]; simpl; intros before H; [discriminate |].
  destruct (Ascii.eqb_spec d c) as [-> | NE].
  - injection H as <- <-. split; reflexivity.
  - destruct (split1 c s) as [[b a] |]; [| discriminate].
    injection H as <- <-. destruct (IH b eq_refl) as [-> Hb].
    split; [reflexivity |]. simpl.
    destruct (Ascii.eqb_spec d c); [contradiction | exact Hb].
Qed.

Lemma split1_none (c : ascii) (s : string) :
  split1 c s = None -> contains s c = false.
Proof.
  induction s as [| d s IH]; simpl; [reflexivity |].
  destruct (Ascii.eqb d c); simpl; [discriminate |].
  destruct (split1 c s) as [[b a] |]; [discriminate | exact IH].
Qed.

Lemma rsplit1_some (c : ascii) (s before after : string) :
  rsplit1 c s = Some (before, after) -> s = before ++ String c after.
Proof.
  revert before. induction s as [| d s IH]; simpl; intros before H; [discriminate |].
  destruct (rsplit1 c s) as [[b a] |].
  - injection H as <- <-. now rewrite (IH b eq_refl).
  - destruct (Ascii.eqb_spec d c) as [-> | NE]; [| discriminate].
    injection H as <- <-. reflexivity.
Qed.

Lemma take_free (n : nat) (s : string) (c : ascii) :
  contains s c = false -> contains (take n s) c = false.
Proof.
  revert s. induction n as [| n IH]; intros [| d s]; simpl; try reflexivity.
  rewrite !orb_false_iff. intros [Hd Hs]. auto.
Qed.

Lemma rstrip_free (p : ascii -> bool) (s : string) (c : ascii) :
  contains s c = false -> contains (rstrip p s) c = false.
Proof.
  induction s as [| d s IH]; simpl; [reflexivity |].
  rewrite orb_false_iff. intros [Hd Hs]. specialize (IH Hs).
  destruct (rstrip p s) as [| d' r].
  - destruct (p d); simpl; [reflexivity | now rewrite Hd].
  - cbn [contains] in *. now rewrite Hd.
Qed.

End StringFacts.

(** ** Query strings *)

Section QueryFacts.

Import Urllib Url.

Local Open Scope list_scope.

Lemma last_value_snoc (values : list string) (v : string) :
  last_value (values ++ [v]) = v.
Proof. apply last_last. Qed.

Lemma parse_qs_from (pairs : list (string * string))
    (acc : dict (list string)) (name : string) :
  option_map last_value
    (dict_get
       (fold_left
          (fun (parsed_result : dict (list string)) nv =>
             match dict_get parsed_result (fst nv) with
             | Some values => dict_set parsed_result (fst nv) (values ++ [snd nv])
             | None => dict_set parsed_result (fst nv) [snd nv]
             end)
          pairs acc)
       name)
  = fold_left
      (fun cur nv => if String.eqb (fst nv) name then Some (snd nv) else cur)
      pairs (option_map last_value (dict_get acc name)).
Proof.
  revert acc. induction pairs as [| [n v] pairs IH]; intros acc; [reflexivity |].
  cbn [fold_left fst snd]. rewrite IH. f_equal.
  destruct (dict_get acc n) as [values |]; rewrite dict_get_set;
    destruct (String.eqb n name); try reflexivity.
  cbn [option_map]. now rewrite last_value_snoc.
Qed.

(** Of a repeated parameter, [parse_qs(...)[name][-1]] is the last value. *)
Lemma parse_qs_last (qs name : string) :
  option_map last_value (dict_get (parse_qs qs) name)
  = last_param name (parse_qsl qs).
Proof. unfold parse_qs, last_param. now rewrite parse_qs_from. Qed.

(** The lists of values that [parse_qs] builds are not empty:
    [query_string[name][-1]] raises no [IndexError]. *)
Lemma parse_qs_nonempty (qs name : string) (values : list string) :
  dict_get (parse_qs qs) name = Some values -> values <> [].
Proof.
  unfold parse_qs.
  assert (forall n vs, dict_get ([] : dict (list string)) n = Some vs -> vs <> [])
    as Hacc by discriminate.
  revert Hacc name values. generalize ([] : dict (list string)) as acc.
  induction (parse_qsl qs) as [| [k v] pairs IH]; intros acc Hacc name values.
  - apply Hacc.
  - cbn [fold_left fst snd]. apply IH. intros n vs.
    destruct (dict_get acc k) as [old |]; rewrite dict_get_set;
      destruct (String.eqb k n); try apply Hacc;
      intros H; injection H as <-; [destruct old |]; discriminate.
Qed.

Lemma parse_qs_match {A : Type} (qs name : string) (f : string -> A) (x : A) :
  match dict_get (parse_qs qs) name with
  | Some values => f (last_value values)
  | None => x
  end
  = match last_param name (parse_qsl qs) with
    | Some v => f v
    | None => x
    end.
Proof.
  rewrite <- parse_qs_last.
  destruct (dict_get (parse_qs qs) name); reflexivity.
Qed.

End QueryFacts.

Section QuoteFacts.

Import Urllib Url.

Lemma hex_digit_safe (n : nat) : is_always_safe (hex_digit n) = true.
Proof.
  do 16 (destruct n as [| n]; [reflexivity |]). reflexivity.
Qed.

Lemma percent_chars (c : ascii) : all_chars is_quoted_char (percent c) = true.
Proof.
  unfold percent. cbn [all_chars].
  unfold is_quoted_char at 2 3. rewrite !hex_digit_safe. reflexivity.
Qed.

Lemma quote_chars (s safe : string) (p : ascii -> bool) :
  (forall c, is_always_safe c || contains safe c = true -> p c = true) ->
  (forall c, is_quoted_char c = true -> p c = true) ->
  all_chars p (quote s safe) = true.
Proof.
  intros Hsafe Hq. induction s as [| d s IH]; [reflexivity |].
  cbn [quote]. rewrite all_chars_app, IH, andb_true_r.
  destruct (is_always_safe d || contains safe d) eqn:E.
  - cbn [all_chars]. now rewrite (Hsafe d E).
  - apply (all_chars_impl is_quoted_char); [exact Hq | apply percent_chars].
Qed.

Lemma all_chars_replace (p q : ascii -> bool) (a b : ascii) (s : string) :
  (forall c, p c = true -> q (if Ascii.eqb c a then b else c) = true) ->
  all_chars p s = true -> all_chars q (replace a b s) = true.
Proof.
  intros Hpq. induction s as [| d s IH]; simpl; [reflexivity |].
  rewrite !andb_true_iff. intros [Hd Hs]. auto.
Qed.

(** [quote_plus] produces unreserved characters, [%] and [+] only. *)
Lemma quote_plus_chars (s : string) :
  all_chars is_quoted_char (quote_plus s) = true.
Proof.
  unfold quote_plus. destruct (negb (contains s " ")).
  - apply quote_chars; [| auto].
    intros c Hc. cbn [contains] in Hc. rewrite orb_false_r in Hc.
    unfold is_quoted_char. now rewrite Hc.
  - apply (all_chars_replace (fun c => is_quoted_char c || Ascii.eqb c " ")).
    + intros c Hc. cbv beta in Hc.
      destruct (Ascii.eqb c " "); [reflexivity |].
      now rewrite orb_false_r in Hc.
    + apply quote_chars.
      * intros c Hc. cbn [contains] in Hc. rewrite orb_false_r in Hc.
        apply orb_true_iff in Hc. destruct Hc as [Hc | Hc].
        -- unfold is_quoted_char. now rewrite Hc.
        -- rewrite Ascii.eqb_sym in Hc. rewrite Hc. apply orb_true_r.
      * intros c Hc. now rewrite Hc.
Qed.

Lemma quote_safe (s safe : string) :
  all_chars is_always_safe s = true -> quote s safe = s.
Proof.
  induction s as [| d s IH]; simpl; [reflexivity |].
  rewrite andb_true_iff. intros [Hd Hs]. rewrite Hd, (IH Hs). reflexivity.
Qed.

(** Text made of unreserved characters is quoted as itself. *)
Lemma quote_plus_safe (s : string) :
  all_chars is_always_safe s = true -> quote_plus s = s.
Proof.
  intros Hs. unfold quote_plus. rewrite !quote_safe by exact Hs.
  destruct (contains s " ") eqn:E; [| reflexivity].
  rewrite (all_chars_free is_always_safe s " " eq_refl Hs) in E. discriminate.
Qed.

Lemma string_of_uint_chars (d : Decimal.uint) :
  all_chars is_digit (NilEmpty.string_of_uint d) = true.
Proof. induction d; simpl; auto. Qed.

Lemma str_chars (z : Z) : all_chars is_int_char (str z) = true.
Proof.
  assert (forall d, all_chars is_int_char (NilZero.string_of_uint d) = true) as H.
  { intros d.
    assert (all_chars is_int_char (NilEmpty.string_of_uint d) = true) as H'.
    { apply (all_chars_impl is_digit); [| apply string_of_uint_chars].
      intros c Hc. unfold is_int_char. now rewrite Hc. }
    destruct d; [reflexivity | exact H' ..]. }
  unfold str. destruct (Z.to_int z) as [d | d]; simpl.
  - apply H.
  - apply H.
Qed.

Lemma is_int_char_safe (c : ascii) : is_int_char c = true -> is_always_safe c = true.
Proof.
  unfold is_int_char, is_always_safe. intros H.
  apply orb_true_iff in H. destruct H as [H | H]; rewrite H;
    rewrite ?orb_true_r; reflexivity.
Qed.

Lemma str_safe (z : Z) : all_chars is_always_safe (str z) = true.
Proof.
  apply (all_chars_impl is_int_char); [apply is_int_char_safe | apply str_chars].
Qed.

Lemma quote_plus_str (z : Z) : quote_plus (str z) = str z.
Proof. apply quote_plus_safe, str_safe. Qed.

(** The query string that [get_url] builds from the resolved values. *)
Lemma urlencode_url_args (headers gid : Z) (sheet : option string) :
  urlencode (url_args headers gid sheet) =
  ((if headers >? 0 then "headers=" ++ str headers ++ "&" else "")
   ++ match sheet with
      | Some name => "sheet=" ++ quote_plus name
      | None => "gid=" ++ str gid
      end)%string.
Proof.
  unfold url_args, urlencode.
  destruct (headers >? 0), sheet as [name |];
    cbn [dict_set map join fst snd arg_str String.eqb Ascii.eqb Bool.eqb];
    rewrite ?quote_plus_str;
    change (quote_plus "headers") with "headers";
    change (quote_plus "sheet") with "sheet";
    change (quote_plus "gid") with "gid";
    rewrite ?app_assoc_str; reflexivity.
Qed.

End QuoteFacts.

(** ** URL builder *)

Section UrlFacts.

Import Urllib Url.

Ltac each_ascii c :=
  destruct c as [[|] [|] [|] [|] [|] [|] [|] [|]].

Lemma undelimited_app (a b : string) :
  undelimited (a ++ b) = undelimited a && undelimited b.
Proof. apply all_chars_app. Qed.

Lemma undelimited_free (s : string) :
  undelimited s = true <-> contains s "?" = false /\ contains s "#" = false.
Proof.
  unfold undelimited, is_delimiter.
  induction s as [| d s IH]; simpl; [tauto |].
  rewrite andb_true_iff, IH, !orb_false_iff, negb_true_iff, orb_false_iff.
  rewrite (Ascii.eqb_sym d "?"), (Ascii.eqb_sym d "#"). tauto.
Qed.

Lemma lower_scheme_undelimited (c : ascii) :
  is_scheme_char c = true -> negb (is_delimiter (lower_char c)) = true.
Proof.
  each_ascii c; vm_compute; intros H; try reflexivity; discriminate H.
Qed.

Lemma split_scheme_undelimited (url : string) :
  undelimited (fst (split_scheme url)) = true.
Proof.
  unfold split_scheme.
  destruct (split1 ":" url) as [[[| c0 rest] after] |]; try reflexivity.
  destruct (is_alpha c0 && all_chars is_scheme_char (String c0 rest)) eqn:E;
    [| reflexivity].
  apply andb_true_iff in E. destruct E as [_ E].
  cbn [fst]. unfold undelimited, lower.
  revert E. apply all_chars_map. exact lower_scheme_undelimited.
Qed.

Lemma span_netloc_undelimited (s : string) :
  undelimited (fst (span_netloc s)) = true.
Proof.
  induction s as [| d s IH]; [reflexivity |].
  cbn [span_netloc].
  destruct (Ascii.eqb d "/" || Ascii.eqb d "?" || Ascii.eqb d "#") eqn:E;
    [reflexivity |].
  destruct (span_netloc s) as [domain rest]. cbn [fst] in *.
  unfold undelimited in *. cbn [all_chars]. rewrite IH, andb_true_r.
  unfold is_delimiter.
  rewrite !orb_false_iff in E. destruct E as [[_ E1] E2]. now rewrite E1, E2.
Qed.

Lemma undelimited_prefix (a b : string) :
  undelimited (a ++ b) = true -> undelimited a = true.
Proof. rewrite undelimited_app, andb_true_iff. tauto. Qed.

Lemma splitparams_undelimited (url : string) :
  undelimited url = true -> undelimited (fst (splitparams url)) = true.
Proof.
  intros H. unfold splitparams.
  destruct (rsplit1 "/" url) as [[before segment] |] eqn:E.
  - destruct (split1 ";" segment) as [[name params] |] eqn:E'; [| exact H].
    apply rsplit1_some in E. apply split1_some in E'. destruct E' as [E' _].
    subst url segment. cbn [fst].
    rewrite undelimited_app in H. apply andb_true_iff in H. destruct H as [H1 H2].
    change (String "/" (name ++ String ";" params))
      with (String "/" name ++ String ";" params) in H2.
    apply undelimited_prefix in H2.
    rewrite undelimited_app, H1. exact H2.
  - destruct (split1 ";" url) as [[name params] |] eqn:E'; [| exact H].
    apply split1_some in E'. destruct E' as [E' _]. subst url. cbn [fst].
    now apply undelimited_prefix in H.
Qed.

(** Neither the scheme, nor the network location, nor the path of a parsed
    URL holds a question mark or a hash. *)
Lemma urlparse_undelimited (uri : string) (parts : ParseResult) :
  urlparse uri = Ok parts ->
  undelimited (scheme parts) = true
  /\ undelimited (netloc parts) = true
  /\ undelimited (path parts) = true.
Proof.
  unfold urlparse, urlsplit. intros H.
  set (url0 := remove_all is_unsafe_url_byte (lstrip is_c0_control_or_space uri)) in H.
  pose proof (split_scheme_undelimited url0) as Hs.
  destruct (split_scheme url0) as [sch url1]. cbn [fst] in Hs.
  assert (exists net url2,
            (if startswith url1 "//"
             then let (netloc, rest) := span_netloc (drop 2 url1) in
                  if contains netloc "[" && negb (contains netloc "]")
                     || contains netloc "]" && negb (contains netloc "[")
                  then Raise ValueError else Ok (netloc, rest)
             else Ok (""%string, url1)) = Ok (net, url2)
            /\ undelimited net = true) as (net & url2 & Hloc & Hnet).
  { destruct (startswith url1 "//").
    - pose proof (span_netloc_undelimited (drop 2 url1)) as Hn.
      destruct (span_netloc (drop 2 url1)) as [n r]. cbn [fst] in Hn.
      destruct (contains n "[" && negb (contains n "]")
                || contains n "]" && negb (contains n "[")).
      + discriminate H.
      + exists n, r. split; [reflexivity | exact Hn].
    - exists ""%string, url1. split; reflexivity. }
  rewrite Hloc in H. cbn [bind] in H.
  assert (exists url3 frag, match split1 "#" url2 with
                            | Some (before, after) => (before, after)
                            | None => (url2, ""%string)
                            end = (url3, frag)
                            /\ contains url3 "#" = false) as (url3 & frag & E3 & H3).
  { destruct (split1 "#" url2) as [[b a] |] eqn:E.
    - exists b, a. split; [reflexivity |]. now apply split1_some in E.
    - exists url2, ""%string. split; [reflexivity |]. now apply split1_none in E. }
  rewrite E3 in H.
  assert (exists url4 qs, match split1 "?" url3 with
                          | Some (before, after) => (before, after)
                          | None => (url3, ""%string)
                          end = (url4, qs)
                          /\ undelimited url4 = true) as (url4 & qs & E4 & H4).
  { destruct (split1 "?" url3) as [[b a] |] eqn:E.
    - exists b, a. split; [reflexivity |].
      apply split1_some in E. destruct E as [-> Hb].
      rewrite contains_app, orb_false_iff in H3.
      apply undelimited_free. tauto.
    - exists url3, ""%string. split; [reflexivity |].
      apply split1_none in E. apply undelimited_free. tauto. }
  rewrite E4 in H. cbn [bind] in H.
  pose proof (splitparams_undelimited url4 H4) as Hp.
  destruct (str_in sch uses_params && contains url4 ";").
  - destruct (splitparams url4) as [u p]. cbn [fst] in Hp.
    injection H as <-. cbn [scheme netloc path]. auto.
  - injection H as <-. cbn [scheme netloc path]. auto.
Qed.

Lemma take_undelimited (n : nat) (s : string) :
  undelimited s = true -> undelimited (take n s) = true.
Proof.
  rewrite !undelimited_free. intros [H1 H2].
  split; apply take_free; assumption.
Qed.

Lemma rstrip_undelimited (p : ascii -> bool) (s : string) :
  undelimited s = true -> undelimited (rstrip p s) = true.
Proof.
  rewrite !undelimited_free. intros [H1 H2].
  split; apply rstrip_free; assumption.
Qed.

Lemma gviz_path_undelimited (p : string) :
  undelimited p = true -> undelimited (gviz_path p) = true.
Proof.
  intros H. unfold gviz_path. cbn [join].
  rewrite undelimited_app. apply andb_true_iff. split; [| reflexivity].
  apply rstrip_undelimited.
  destruct (endswith p "/edit"); [apply take_undelimited |]; exact H.
Qed.

Lemma urlunsplit_undelimited (sch net p : string) :
  undelimited sch = true -> undelimited net = true -> undelimited p = true ->
  undelimited (urlunsplit sch net p "" "") = true.
Proof.
  intros Hs Hn Hp. unfold urlunsplit. cbn [String.eqb negb].
  repeat match goal with
         | |- context [if ?b then _ else _] => destruct b
         end;
    rewrite ?undelimited_app, ?Hs, ?Hn, ?Hp; reflexivity.
Qed.

(** The URL that [urlunparse] builds from a query and no fragment. *)
Lemma urlunparse_query (sch net p qs : string) :
  qs <> ""%string ->
  urlunparse sch net p "" qs "" = (urlunsplit sch net p "" "" ++ "?" ++ qs)%string.
Proof.
  intros Hq. unfold urlunparse, urlunsplit. cbn [String.eqb negb].
  destruct (String.eqb_spec qs ""); [contradiction | reflexivity].
Qed.

(** [resolve], read off the parameters of the query. *)
Lemma resolve_params (parts : ParseResult) (headers gid : Z) (sheet : option string) :
  resolve parts headers gid sheet =
  (headers' <-
     match query_param "headers" parts with
     | Some v => int v
     | None => Ok headers
     end ;;
   gid' <-
     match query_param "gid" parts with
     | Some v => int v
     | None => Ok gid
     end ;;
   gid'' <-
     (if startswith (fragment parts) "gid="
      then int (drop 4 (fragment parts))
      else Ok gid') ;;
   Ok (headers', gid'',
       match query_param "sheet" parts with
       | Some v => Some v
       | None => sheet
       end)).
Proof.
  unfold resolve, query_param. rewrite !parse_qs_match. reflexivity.
Qed.

Lemma get_url_ok (uri : string) (headers gid : Z) (sheet : option string)
    (url : string) :
  get_url uri headers gid sheet = Ok url ->
  exists parts headers' gid' sheet',
    urlparse uri = Ok parts
    /\ resolve parts headers gid sheet = Ok (headers', gid', sheet')
    /\ url = urlunparse (scheme parts) (netloc parts) (gviz_path (path parts))
               "" (urlencode (url_args headers' gid' sheet')) "".
Proof.
  unfold get_url. intros H.
  apply bind_ok in H. destruct H as (parts & Hparts & H).
  apply bind_ok in H. destruct H as ([[headers' gid'] sheet'] & Hres & H).
  injection H as <-.
  exists parts, headers', gid', sheet'. auto.
Qed.

Lemma query_names_one (k v : string) :
  contains k "=" = false -> contains k "&" = false -> contains v "&" = false ->
  query_names (k ++ String "=" v) = [k].
Proof.
  intros Hk1 Hk2 Hv. unfold query_names.
  rewrite split_free.
  - cbn [map]. now rewrite split1_app.
  - rewrite contains_app, Hk2. cbn [contains]. now rewrite Hv.
Qed.

Lemma query_names_two (k1 v1 k2 v2 : string) :
  contains k1 "=" = false -> contains k1 "&" = false -> contains v1 "&" = false ->
  contains k2 "=" = false -> contains k2 "&" = false -> contains v2 "&" = false ->
  query_names ((k1 ++ String "=" v1) ++ String "&" (k2 ++ String "=" v2))
  = [k1; k2].
Proof.
  intros H1 H2 H3 H4 H5 H6. unfold query_names.
  rewrite split_app.
  - cbn [map]. rewrite split1_app by exact H1.
    fold (query_names (k2 ++ String "=" v2)).
    now rewrite query_names_one.
  - rewrite contains_app, H2. cbn [contains]. now rewrite H3.
Qed.

Lemma str_free (z : Z) (c : ascii) :
  is_int_char c = false -> contains (str z) c = false.
Proof. intros Hc. exact (all_chars_free _ _ _ Hc (str_chars z)). Qed.

Lemma quote_plus_free (s : string) (c : ascii) :
  is_quoted_char c = false -> contains (quote_plus s) c = false.
Proof. intros Hc. exact (all_chars_free _ _ _ Hc (quote_plus_chars s)). Qed.

(** The names of the parameters in the query string that [get_url] builds. *)
Lemma query_names_url_args (headers gid : Z) (sheet : option string) :
  query_names (urlencode (url_args headers gid sheet)) =
  ((if headers >? 0 then ["headers"%string] else [])
   ++ [match sheet with Some _ => "sheet" | None => "gid" end%string])%list.
Proof.
  rewrite urlencode_url_args.
  pose proof (str_free headers "&" eq_refl) as Hh.
  pose proof (str_free gid "&" eq_refl) as Hg.
  destruct (headers >? 0), sheet as [name |]; rewrite ?app_assoc_str.
  - pose proof (quote_plus_free name "&" eq_refl) as Hn.
    exact (query_names_two "headers" (str headers) "sheet" (quote_plus name)
             eq_refl eq_refl Hh eq_refl eq_refl Hn).
  - exact (query_names_two "headers" (str headers) "gid" (str gid)
             eq_refl eq_refl Hh eq_refl eq_refl Hg).
  - pose proof (quote_plus_free name "&" eq_refl) as Hn.
    exact (query_names_one "sheet" (quote_plus name) eq_refl eq_refl Hn).
  - exact (query_names_one "gid" (str gid) eq_refl eq_refl Hg).
Qed.

Lemma urlencode_url_args_hash (headers gid : Z) (sheet : option string) :
  contains (urlencode (url_args headers gid sheet)) "#" = false.
Proof.
  rewrite urlencode_url_args.
  pose proof (str_free headers "#" eq_refl) as Hh.
  pose proof (str_free gid "#" eq_refl) as Hg.
  destruct (headers >? 0), sheet as [name |];
    try pose proof (quote_plus_free name "#" eq_refl) as Hn;
    rewrite ?contains_app; cbn [contains Ascii.eqb Bool.eqb orb];
    rewrite ?contains_app, ?Hh, ?Hg, ?Hn; reflexivity.
Qed.

Lemma urlencode_url_args_nonempty (headers gid : Z) (sheet : option string) :
  urlencode (url_args headers gid sheet) <> ""%string.
Proof.
  rewrite urlencode_url_args.
  destruct (headers >? 0), sheet; discriminate.
Qed.

End UrlFacts.

Section UrlClaims.

Import Urllib Url.

(** C5.  When [get_url] returns a URL, the URL has no fragment and its
    query, what follows its question mark, carries the parameters named
    here and no other: "headers" with the resolved header count if and
    only if that count is greater than zero, then "sheet" with the sheet
    name if a sheet name is known from the query of the input or from the
    default, and otherwise "gid" with the resolved grid id, whatever its
    value; never both "sheet" and "gid". *)
Theorem get_url_query_selection
    (uri : string) (headers gid : Z) (sheet : option string) (url : string) :
  get_url uri headers gid sheet = Ok url ->
  exists parts headers' gid' sheet',
    urlparse uri = Ok parts
    /\ resolve parts headers gid sheet = Ok (headers', gid', sheet')
    /\ sheet' = match query_param "sheet" parts with
                | Some name => Some name
                | None => sheet
                end
    /\ contains url "#" = false
    /\ query_of url =
       ((if headers' >? 0 then "headers=" ++ str headers' ++ "&" else "")
        ++ match sheet' with
           | Some name => "sheet=" ++ quote_plus name
           | None => "gid=" ++ str gid'
           end)%string
    /\ query_names (query_of url) =
       ((if headers' >? 0 then ["headers"%string] else [])
        ++ [match sheet' with Some _ => "sheet" | None => "gid" end%string])%list.
Proof.
  intros H. apply get_url_ok in H.
  destruct H as (parts & headers' & gid' & sheet' & Hparts & Hres & ->).
  exists parts, headers', gid', sheet'.
  split; [exact Hparts |]. split; [exact Hres |].
  split.
  { rewrite resolve_params in Hres.
    apply bind_ok in Hres. destruct Hres as (h1 & _ & Hres).
    apply bind_ok in Hres. destruct Hres as (g1 & _ & Hres).
    apply bind_ok in Hres. destruct Hres as (g2 & _ & Hres).
    now injection Hres as _ _ <-. }
  destruct (urlparse_undelimited _ _ Hparts) as (Hs & Hn & Hp).
  pose proof (urlunsplit_undelimited _ _ _ Hs Hn (gviz_path_undelimited _ Hp)) as Hbase.
  apply undelimited_free in Hbase. destruct Hbase as [Hq Hh].
  rewrite urlunparse_query by apply urlencode_url_args_nonempty.
  assert (query_of
            (urlunsplit (scheme parts) (netloc parts) (gviz_path (path parts)) "" ""
             ++ "?" ++ urlencode (url_args headers' gid' sheet'))
          = urlencode (url_args headers' gid' sheet')) as Hquery.
  { unfold query_of. cbn [append]. now rewrite split1_app. }
  rewrite Hquery.
  split; [| split].
  - rewrite contains_app, Hh. cbn [append contains Ascii.eqb Bool.eqb orb].
    apply urlencode_url_args_hash.
  - apply urlencode_url_args.
  - apply query_names_url_args.
Qed.

Lemma get_url_query_selection_witness :
  get_url "https://x/y/d/ID/edit?sheet=Sheet2" 0 0 None
    = Ok "https://x/y/d/ID/gviz/tq?sheet=Sheet2"%string
  /\ exists parts headers' gid' sheet',
       urlparse "https://x/y/d/ID/edit?sheet=Sheet2" = Ok parts
       /\ resolve parts 0 0 None = Ok (headers', gid', sheet')
       /\ sheet' = match query_param "sheet" parts with
                   | Some name => Some name
                   | None => None
                   end
       /\ contains "https://x/y/d/ID/gviz/tq?sheet=Sheet2" "#" = false
       /\ query_of "https://x/y/d/ID/gviz/tq?sheet=Sheet2" =
          ((if headers' >? 0 then "headers=" ++ str headers' ++ "&" else "")
           ++ match sheet' with
              | Some name => "sheet=" ++ quote_plus name
              | None => "gid=" ++ str gid'
              end)%string
       /\ query_names (query_of "https://x/y/d/ID/gviz/tq?sheet=Sheet2") =
          ((if headers' >? 0 then ["headers"%string] else [])
           ++ [match sheet' with Some _ => "sheet" | None => "gid" end%string])%list.
Proof.
  split; [reflexivity |].
  apply (get_url_query_selection "https://x/y/d/ID/edit?sheet=Sheet2" 0 0 None).
  reflexivity.
Defined.

Lemma last_param_snoc (name : string) (pairs : list (string * string)) (v : string) :
  last_param name (pairs ++ [(name, v)]) = Some v.
Proof.
  unfold last_param. rewrite fold_left_app. cbn [fold_left fst snd].
  now rewrite String.eqb_refl.
Qed.

(** C6.  When [get_url] returns, the header count is the integer of the
    last "headers" value of the query if there is one and the default
    otherwise, the sheet name is the last "sheet" value if there is one
    and the default otherwise, and the grid id is the integer that follows
    "gid=" in the fragment if the fragment starts so, whatever the query
    says, and otherwise the integer of the last "gid" value of the query,
    or the default; the value of a parameter is that of its last
    occurrence.  In particular https://x/y/d/ID/edit?gid=3#gid=7 with no
    sheet resolves the grid id to 7. *)
Theorem get_url_precedence :
  (forall uri headers gid sheet url,
     get_url uri headers gid sheet = Ok url ->
     exists parts headers' gid' sheet',
       urlparse uri = Ok parts
       /\ url = urlunparse (scheme parts) (netloc parts)
                  (gviz_path (path parts)) ""
                  (urlencode (url_args headers' gid' sheet')) ""
       /\ match query_param "headers" parts with
          | Some v => int v = Ok headers'
          | None => headers' = headers
          end
       /\ sheet' = match query_param "sheet" parts with
                   | Some v => Some v
                   | None => sheet
                   end
       /\ if startswith (fragment parts) "gid="
          then int (drop 4 (fragment parts)) = Ok gid'
          else match query_param "gid" parts with
               | Some v => int v = Ok gid'
               | None => gid' = gid
               end)
  /\ (forall name pairs v, last_param name (pairs ++ [(name, v)]) = Some v)
  /\ get_url "https://x/y/d/ID/edit?gid=3#gid=7" 0 0 None
     = Ok "https://x/y/d/ID/gviz/tq?gid=7"%string
  /\ get_url "https://x/y/d/ID/edit?headers=1&gid=4&sheet=a&headers=2&gid=5&sheet=b"
       0 0 None
     = Ok "https://x/y/d/ID/gviz/tq?headers=2&sheet=b"%string
  /\ get_url "https://x/y/d/ID/edit?gid=4&gid=5" 0 0 None
     = Ok "https://x/y/d/ID/gviz/tq?gid=5"%string.
Proof.
  split; [| split; [exact last_param_snoc | repeat split]].
  intros uri headers gid sheet url H. apply get_url_ok in H.
  destruct H as (parts & headers' & gid' & sheet' & Hparts & Hres & ->).
  exists parts, headers', gid', sheet'.
  split; [exact Hparts |]. split; [reflexivity |].
  rewrite resolve_params in Hres.
  apply bind_ok in Hres. destruct Hres as (h1 & Hh & Hres).
  apply bind_ok in Hres. destruct Hres as (g1 & Hg & Hres).
  apply bind_ok in Hres. destruct Hres as (g2 & Hf & Hres).
  injection Hres as <- <- <-.
  split; [| split; [reflexivity |]].
  - destruct (query_param "headers" parts); congruence.
  - destruct (startswith (fragment parts) "gid="); [exact Hf |].
    injection Hf as <-. destruct (query_param "gid" parts); congruence.
Qed.

Lemma get_url_precedence_witness :
  exists parts headers' gid' sheet',
    urlparse "https://x/y/d/ID/edit?gid=3#gid=7" = Ok parts
    /\ "https://x/y/d/ID/gviz/tq?gid=7"%string
       = urlunparse (scheme parts) (netloc parts)
           (gviz_path (path parts)) ""
           (urlencode (url_args headers' gid' sheet')) ""
    /\ match query_param "headers" parts with
       | Some v => int v = Ok headers'
       | None => headers' = 0
       end
    /\ sheet' = match query_param "sheet" parts with
                | Some v => Some v
                | None => None
                end
    /\ if startswith (fragment parts) "gid="
       then int (drop 4 (fragment parts)) = Ok gid'
       else match query_param "gid" parts with
            | Some v => int v = Ok gid'
            | None => gid' = 0
            end.
Proof.
  apply (proj1 get_url_precedence "https://x/y/d/ID/edit?gid=3#gid=7" 0 0 None).
  reflexivity.
Defined.

Lemma int_raises (s : string) (e : exn) : int s = Raise e -> e = ValueError.
Proof.
  unfold int.
  match goal with |- match ?p with _ => _ end = _ -> _ => destruct p end;
    [| congruence].
  match goal with |- (if ?b then _ else _) = _ -> _ => destruct b end;
    congruence.
Qed.

(** C9, refuted.  The URL parses, but its "gid" parameter is not an
    integer: [get_url] raises [ValueError]; so it does on a fragment
    "gid=" with nothing behind. *)
Lemma get_url_raises_on_gid :
  (exists parts, urlparse "https://x/y/d/ID/edit?gid=abc" = Ok parts)
  /\ get_url "https://x/y/d/ID/edit?gid=abc" 0 0 None = Raise ValueError
  /\ ~ (exists url, get_url "https://x/y/d/ID/edit?gid=abc" 0 0 None = Ok url)
  /\ get_url "https://x/y/d/ID/edit#gid=" 0 0 None = Raise ValueError.
Proof.
  split; [eexists; reflexivity |]. split; [reflexivity |]. split; [| reflexivity].
  intros [url H]. vm_compute in H. discriminate.
Qed.

(** C9, amended.  Take a URL that parses, with a network location in
    ASCII and without brackets, whose last "headers", "gid" and "sheet"
    values and whose fragment after "gid=" are ASCII text, and defaults
    that [str] can write.  Then [get_url] returns a result exactly when
    the last "headers" value and the last "gid" value of the query, if
    there are any, are integer literals and the fragment, if it starts
    with "gid=", continues with an integer literal; whatever it raises is
    a [ValueError]. *)
Theorem get_url_returns_iff
    (uri : string) (parts : ParseResult) (headers gid : Z) (sheet : option string) :
  urlparse uri = Ok parts ->
  plain_netloc parts = true ->
  (forall v, query_param "headers" parts = Some v -> is_ascii v = true) ->
  (forall v, query_param "gid" parts = Some v -> is_ascii v = true) ->
  (startswith (fragment parts) "gid=" = true ->
   is_ascii (drop 4 (fragment parts)) = true) ->
  (forall v, query_param "sheet" parts = Some v -> is_ascii v = true) ->
  (forall v, sheet = Some v -> is_ascii v = true) ->
  within_str_digits headers = true ->
  within_str_digits gid = true ->
  ((exists url, get_url uri headers gid sheet = Ok url) <->
   (forall v, query_param "headers" parts = Some v -> is_int_literal v = true)
   /\ (forall v, query_param "gid" parts = Some v -> is_int_literal v = true)
   /\ (startswith (fragment parts) "gid=" = true ->
       is_int_literal (drop 4 (fragment parts)) = true))
  /\ (forall e, get_url uri headers gid sheet = Raise e -> e = ValueError).
Proof.
  intros Hparts _ _ _ _ _ _ _ _. unfold get_url. rewrite Hparts. cbn [bind].
  rewrite resolve_params. unfold is_int_literal.
  set (from_headers := match query_param "headers" parts with
                       | Some v => int v
                       | None => Ok headers
                       end).
  set (from_gid := match query_param "gid" parts with
                   | Some v => int v
                   | None => Ok gid
                   end).
  assert (forall e, from_headers = Raise e -> e = ValueError) as Rh.
  { subst from_headers. intros e. destruct (query_param "headers" parts);
      [apply int_raises | discriminate]. }
  assert (forall e, from_gid = Raise e -> e = ValueError) as Rg.
  { subst from_gid. intros e. destruct (query_param "gid" parts);
      [apply int_raises | discriminate]. }
  split; [split |].
  - intros [url H].
    apply bind_ok in H. destruct H as ([[h g'] s'] & H & _).
    apply bind_ok in H. destruct H as (h1 & Hh & H).
    apply bind_ok in H. destruct H as (g1 & Hg & H).
    apply bind_ok in H. destruct H as (g2 & Hf & _).
    subst from_headers from_gid. repeat split.
    + intros v Hv. rewrite Hv in Hh. now rewrite Hh.
    + intros v Hv. rewrite Hv in Hg. now rewrite Hg.
    + intros Hsw. rewrite Hsw in Hf. now rewrite Hf.
  - intros (H1 & H2 & H3).
    assert (exists h1, from_headers = Ok h1) as [h1 ->].
    { subst from_headers. destruct (query_param "headers" parts) as [v |]; [| eauto].
      specialize (H1 v eq_refl). destruct (int v); [eauto | discriminate]. }
    assert (exists g1, from_gid = Ok g1) as [g1 ->].
    { subst from_gid. destruct (query_param "gid" parts) as [v |]; [| eauto].
      specialize (H2 v eq_refl). destruct (int v); [eauto | discriminate]. }
    cbn [bind].
    destruct (startswith (fragment parts) "gid=").
    + specialize (H3 eq_refl).
      destruct (int (drop 4 (fragment parts))); [| discriminate].
      cbn [bind]. eexists; reflexivity.
    + cbn [bind]. eexists; reflexivity.
  - intros e H.
    destruct from_headers as [h1 | e1]; cbn [bind] in H;
      [| injection H as <-; now apply Rh].
    destruct from_gid as [g1 | e1]; cbn [bind] in H;
      [| injection H as <-; now apply Rg].
    destruct (startswith (fragment parts) "gid="); cbn [bind] in H;
      [| discriminate H].
    destruct (int (drop 4 (fragment parts))) as [g2 | e2] eqn:Ef;
      cbn [bind] in H; [discriminate H |].
    injection H as <-. exact (int_raises _ _ Ef).
Qed.

Lemma get_url_returns_iff_witness :
  (exists url, get_url "https://x/y/d/ID/edit?headers=2&gid=3#gid=7" 0 0 None = Ok url)
  /\ ~ (exists url, get_url "https://x/y/d/ID/edit?gid=abc" 0 0 None = Ok url)
  /\ (forall e, get_url "https://x/y/d/ID/edit?gid=abc" 0 0 None = Raise e ->
                e = ValueError).
Proof.
  assert (forall (P : string -> Prop) (got : string),
            P got -> forall v, Some got = Some v -> P v) as Hsome.
  { intros P got Hgot v H. injection H as <-. exact Hgot. }
  assert (forall (P : string -> Prop) v, @None string = Some v -> P v) as Hnone.
  { intros P v H. discriminate H. }
  pose proof (get_url_returns_iff "https://x/y/d/ID/edit?headers=2&gid=3#gid=7"
                (mk_parts "https" "x" "/y/d/ID/edit" "" "headers=2&gid=3" "gid=7")
                0 0 None eq_refl eq_refl
                (Hsome (fun v => is_ascii v = true) "2"%string eq_refl)
                (Hsome (fun v => is_ascii v = true) "3"%string eq_refl)
                (fun _ => eq_refl)
                (Hnone (fun v => is_ascii v = true))
                (Hnone (fun v => is_ascii v = true))
                eq_refl eq_refl) as [Hgood _].
  pose proof (get_url_returns_iff "https://x/y/d/ID/edit?gid=abc"
                (mk_parts "https" "x" "/y/d/ID/edit" "" "gid=abc" "")
                0 0 None eq_refl eq_refl
                (Hnone (fun v => is_ascii v = true))
                (Hsome (fun v => is_ascii v = true) "abc"%string eq_refl)
                (fun H => False_ind _ (Bool.diff_false_true H))
                (Hnone (fun v => is_ascii v = true))
                (Hnone (fun v => is_ascii v = true))
                eq_refl eq_refl) as [Hbad Hexn].
  split; [| split].
  - apply Hgood. split; [| split].
    + exact (Hsome (fun v => is_int_literal v = true) "2"%string eq_refl).
    + exact (Hsome (fun v => is_int_literal v = true) "3"%string eq_refl).
    + intros _. reflexivity.
  - intros Hret. apply Hbad in Hret. destruct Hret as (_ & Hgid & _).
    specialize (Hgid "abc"%string eq_refl). discriminate Hgid.
  - exact Hexn.
Defined.

End UrlClaims.

(** ** Synchronization mode resolver *)

Section SyncFacts.

Import Urllib Url Sync.

Context {M : Type}.
Variable members : list (string * Z * M).

(** [get_sync_mode], read off the parameters of the query. *)
Lemma get_sync_mode_params (uri : string) (parts : ParseResult) :
  urlparse uri = Ok parts ->
  get_sync_mode members uri =
  match query_param "sync_mode" parts with
  | Some token =>
      sync_mode <-
        try_except (by_name members (upper token)) is_KeyError
          (try_except (value <- int (upper token) ;; by_value members value)
             is_ValueError
             (Raise (ProgrammingError ("Invalid sync mode: " ++ upper token)))) ;;
      Ok (Some sync_mode)
  | None => Ok None
  end.
Proof.
  intros Hparts. unfold get_sync_mode, query_param. rewrite Hparts. cbn [bind].
  apply (parse_qs_match (query parts) "sync_mode"
           (fun token =>
              sync_mode <-
                try_except (by_name members (upper token)) is_KeyError
                  (try_except (value <- int (upper token) ;; by_value members value)
                     is_ValueError
                     (Raise (ProgrammingError ("Invalid sync mode: " ++ upper token)))) ;;
              Ok (Some sync_mode))).
Qed.

Lemma by_name_cases (name : string) :
  (exists m, by_name members name = Ok m) \/ by_name members name = Raise KeyError.
Proof.
  unfold by_name. destruct (find _ members); eauto.
Qed.

Lemma by_value_cases (value : Z) :
  (exists m, by_value members value = Ok m)
  \/ by_value members value = Raise ValueError.
Proof.
  unfold by_value. destruct (find _ members); eauto.
Qed.

Lemma unquote_nonblank (s : string) : s <> ""%string -> unquote s <> ""%string.
Proof.
  destruct s as [| d s]; [congruence |]. intros _.
  unfold unquote. cbn [split].
  destruct (Ascii.eqb d "%").
  - cbn [append].
    destruct (split "%" s) as [| piece pieces] eqn:E.
    + destruct s as [| d' s']; cbn [split] in E; [discriminate E |].
      destruct (Ascii.eqb d' "%"); [discriminate E |].
      destruct (split "%" s'); discriminate E.
    + cbn [map].
      assert (exists a r, unquote_item piece = String a r) as (a & r & ->).
      { unfold unquote_item. destruct piece as [| a [| b rest]]; eauto.
        destruct (hex_value a), (hex_value b); eauto. }
      destruct (map unquote_item pieces); cbn [join append]; discriminate.
  - destruct (split "%" s); cbn [append]; discriminate.
Qed.

Lemma last_param_in (name : string) (pairs : list (string * string)) (v : string) :
  last_param name pairs = Some v -> In (name, v) pairs.
Proof.
  unfold last_param.
  induction pairs as [| [n x] pairs IH] using rev_ind; [discriminate |].
  rewrite fold_left_app. cbn [fold_left fst snd].
  rewrite in_app_iff. destruct (String.eqb_spec n name) as [-> | _].
  - intros H. injection H as <-. right. left. reflexivity.
  - intros H. left. exact (IH H).
Qed.

(** The query parser drops the blank values: no parameter has one. *)
Lemma query_param_nonblank (name : string) (parts : ParseResult) (v : string) :
  query_param name parts = Some v -> v <> ""%string.
Proof.
  unfold query_param. intros H. apply last_param_in in H.
  unfold parse_qsl in H. apply in_flat_map in H.
  destruct H as (name_value & _ & H).
  destruct (split1 "=" name_value) as [[n x] |]; [| destruct H].
  destruct (String.eqb x "") eqn:Ex; cbn [negb] in H; [destruct H |].
  destruct H as [H | []]. injection H as _ <-.
  apply unquote_nonblank. destruct x; [discriminate Ex | discriminate].
Qed.

Lemma int_cases (s : string) : (exists z, int s = Ok z) \/ int s = Raise ValueError.
Proof.
  destruct (int s) as [z | e] eqn:E; [eauto |].
  right. now rewrite (int_raises _ _ E).
Qed.

End SyncFacts.

Section SyncClaims.

Import Urllib Url Sync.

(** C7.  On a URL that parses, with a network location in ASCII and
    without brackets: without a "sync_mode" parameter in the query,
    [get_sync_mode] returns [None] and raises nothing.  With one, the
    token is the last value of the parameter that is not blank; if the
    token, ASCII text, in upper case is the name of a member, that member
    is returned; only otherwise, if the token is the literal of an integer
    that is the code of a member, that member is returned.  Tokens that differ in case only resolve alike, and
    sync_mode=batch, sync_mode=BATCH and sync_mode=3 all give BATCH.  A
    blank value counts as no value. *)
Theorem get_sync_mode_resolution :
  (forall (M : Type) (members : list (string * Z * M)) uri parts,
     urlparse uri = Ok parts ->
     plain_netloc parts = true ->
     query_param "sync_mode" parts = None ->
     get_sync_mode members uri = Ok None)
  /\ (forall (M : Type) (members : list (string * Z * M)) uri parts token m,
        urlparse uri = Ok parts ->
        plain_netloc parts = true ->
        query_param "sync_mode" parts = Some token ->
        is_ascii token = true ->
        by_name members (upper token) = Ok m ->
        get_sync_mode members uri = Ok (Some m))
  /\ (forall (M : Type) (members : list (string * Z * M)) uri parts token code m,
        urlparse uri = Ok parts ->
        plain_netloc parts = true ->
        query_param "sync_mode" parts = Some token ->
        is_ascii token = true ->
        by_name members (upper token) = Raise KeyError ->
        int (upper token) = Ok code ->
        by_value members code = Ok m ->
        get_sync_mode members uri = Ok (Some m))
  /\ (forall (M : Type) (members : list (string * Z * M))
             uri1 parts1 token1 uri2 parts2 token2,
        urlparse uri1 = Ok parts1 ->
        plain_netloc parts1 = true ->
        query_param "sync_mode" parts1 = Some token1 ->
        is_ascii token1 = true ->
        urlparse uri2 = Ok parts2 ->
        plain_netloc parts2 = true ->
        query_param "sync_mode" parts2 = Some token2 ->
        is_ascii token2 = true ->
        upper token1 = upper token2 ->
        get_sync_mode members uri1 = get_sync_mode members uri2)
  /\ get_sync_mode SyncMode_members "https://x/y/d/ID/edit?sync_mode=batch"
     = Ok (Some BATCH)
  /\ get_sync_mode SyncMode_members "https://x/y/d/ID/edit?sync_mode=BATCH"
     = Ok (Some BATCH)
  /\ get_sync_mode SyncMode_members "https://x/y/d/ID/edit?sync_mode=3"
     = Ok (Some BATCH)
  /\ get_sync_mode SyncMode_members "https://x/y/d/ID/edit?sync_mode=1&sync_mode=Batch"
     = Ok (Some BATCH)
  /\ get_sync_mode SyncMode_members "https://x/y/d/ID/edit?gid=3"
     = Ok None
  /\ get_sync_mode SyncMode_members "https://x/y/d/ID/edit?sync_mode="
     = Ok None
  /\ get_sync_mode SyncMode_members "https://x/y/d/ID/edit?sync_mode=batch&sync_mode="
     = Ok (Some BATCH).
Proof.
  split; [| split; [| split; [| split; [| repeat split]]]].
  - intros M members uri parts Hparts _ Hq.
    rewrite (get_sync_mode_params members uri parts Hparts), Hq. reflexivity.
  - intros M members uri parts token m Hparts _ Hq _ Hname.
    rewrite (get_sync_mode_params members uri parts Hparts), Hq, Hname.
    reflexivity.
  - intros M members uri parts token code m Hparts _ Hq _ Hname Hint Hcode.
    rewrite (get_sync_mode_params members uri parts Hparts), Hq, Hname, Hint.
    cbn [try_except is_KeyError bind]. rewrite Hcode. reflexivity.
  - intros M members uri1 parts1 token1 uri2 parts2 token2
           H1 _ Hq1 _ H2 _ Hq2 _ E.
    rewrite (get_sync_mode_params members uri1 parts1 H1), Hq1.
    rewrite (get_sync_mode_params members uri2 parts2 H2), Hq2.
    now rewrite E.
Qed.

Lemma get_sync_mode_resolution_witness :
  get_sync_mode SyncMode_members "https://x/y/d/ID/edit?sync_mode=batch"
  = Ok (Some BATCH)
  /\ get_sync_mode SyncMode_members "https://x/y/d/ID/edit?sync_mode=3"
     = Ok (Some BATCH)
  /\ get_sync_mode SyncMode_members "https://x/y/d/ID/edit?sync_mode=batch"
     = get_sync_mode SyncMode_members "https://x/y/d/ID/edit?sync_mode=BaTcH"
  /\ get_sync_mode SyncMode_members "https://x/y/d/ID/edit" = Ok None.
Proof.
  destruct get_sync_mode_resolution as (Hnone & Hname & Hcode & Hcase & _).
  split; [| split; [| split]].
  - apply (Hname SyncMode SyncMode_members
             "https://x/y/d/ID/edit?sync_mode=batch"
             (mk_parts "https" "x" "/y/d/ID/edit" "" "sync_mode=batch" "")
             "batch" BATCH); reflexivity.
  - apply (Hcode SyncMode SyncMode_members
             "https://x/y/d/ID/edit?sync_mode=3"
             (mk_parts "https" "x" "/y/d/ID/edit" "" "sync_mode=3" "")
             "3" 3%Z BATCH); reflexivity.
  - apply (Hcase SyncMode SyncMode_members
             "https://x/y/d/ID/edit?sync_mode=batch"
             (mk_parts "https" "x" "/y/d/ID/edit" "" "sync_mode=batch" "")
             "batch"
             "https://x/y/d/ID/edit?sync_mode=BaTcH"
             (mk_parts "https" "x" "/y/d/ID/edit" "" "sync_mode=BaTcH" "")
             "BaTcH"); reflexivity.
  - apply (Hnone SyncMode SyncMode_members
             "https://x/y/d/ID/edit"
             (mk_parts "https" "x" "/y/d/ID/edit" "" "" "")); reflexivity.
Defined.

(** C8, refuted.  The token bogus is no name and no code: the error that
    [get_sync_mode] raises carries BOGUS, the token in upper case; the
    token as the URL has it does not occur in the message. *)
Lemma get_sync_mode_uppercases_token :
  get_sync_mode SyncMode_members "https://x/y/d/ID/edit?sync_mode=bogus"
  = Raise (ProgrammingError "Invalid sync mode: BOGUS")
  /\ ~ (exists message,
          get_sync_mode SyncMode_members "https://x/y/d/ID/edit?sync_mode=bogus"
          = Raise (ProgrammingError message)
          /\ occurs "bogus" message = true).
Proof.
  split; [reflexivity |].
  intros (message & H & Hocc). vm_compute in H. injection H as <-.
  vm_compute in Hocc. discriminate.
Qed.

(** C8, amended.  On a URL that parses, with a network location in ASCII
    and without brackets: for a token, ASCII text, that is neither the
    name of a member, once in upper case, nor the literal of the code of a
    member, [get_sync_mode] raises a configuration error whose message is
    "Invalid sync mode: " followed by the token in upper case, as decoded
    from the query; it returns no mode in its place.  A blank token is no
    token: sync_mode= with nothing behind gives [None], not an error. *)
Theorem get_sync_mode_invalid (M : Type) (members : list (string * Z * M)) :
  (forall (uri : string) (parts : ParseResult) (token : string),
     urlparse uri = Ok parts ->
     plain_netloc parts = true ->
     query_param "sync_mode" parts = Some token ->
     is_ascii token = true ->
     (forall m, by_name members (upper token) <> Ok m) ->
     (forall code m, int (upper token) = Ok code -> by_value members code <> Ok m) ->
     get_sync_mode members uri
     = Raise (ProgrammingError ("Invalid sync mode: " ++ upper token)))
  /\ (forall (uri : string) (parts : ParseResult) (token : string),
        urlparse uri = Ok parts ->
        query_param "sync_mode" parts = Some token ->
        token <> ""%string)
  /\ get_sync_mode members "https://x/y/d/ID/edit?sync_mode=" = Ok None.
Proof.
  split; [| split; [| reflexivity]].
  - intros uri parts token Hparts _ Hq _ Hname Hcode.
    rewrite (get_sync_mode_params members uri parts Hparts), Hq.
    destruct (by_name_cases members (upper token)) as [[m Hm] | ->];
      [now apply Hname in Hm |].
    cbn [try_except is_KeyError].
    destruct (int_cases (upper token)) as [[code Hint] | ->].
    + rewrite Hint. cbn [bind].
      destruct (by_value_cases members code) as [[m Hm] | ->];
        [now apply (Hcode _ _ Hint) in Hm | reflexivity].
    + reflexivity.
  - intros uri parts token _ Hq. exact (query_param_nonblank _ _ _ Hq).
Qed.

Lemma get_sync_mode_invalid_witness :
  get_sync_mode SyncMode_members "https://x/y/d/ID/edit?sync_mode=bogus"
  = Raise (ProgrammingError "Invalid sync mode: BOGUS")
  /\ get_sync_mode SyncMode_members "https://x/y/d/ID/edit?sync_mode=" = Ok None.
Proof.
  destruct (get_sync_mode_invalid SyncMode SyncMode_members) as (Hbad & _ & Hblank).
  split; [| exact Hblank].
  apply (Hbad "https://x/y/d/ID/edit?sync_mode=bogus"
              (mk_parts "https" "x" "/y/d/ID/edit" "" "sync_mode=bogus" "")
              "bogus").
  - reflexivity.
  - reflexivity.
  - reflexivity.
  - reflexivity.
  - intros m H. vm_compute in H. discriminate.
  - intros code m H. vm_compute in H. discriminate.
Defined.

End SyncClaims.

(** * Further properties of the code *)

(** ** Column address codec *)

Section CodecMore.

Import Codec.

Local Open Scope nat_scope.
Local Open Scope list_scope.

Lemma string_of_list_ascii_app (l1 l2 : list ascii) :
  string_of_list_ascii (l1 ++ l2)
  = (string_of_list_ascii l1 ++ string_of_list_ascii l2)%string.
Proof.
  induction l1 as [| c l1 IH]; simpl; [reflexivity | now rewrite IH].
Qed.

Lemma string_of_list_ascii_length (l : list ascii) :
  String.length (string_of_list_ascii l) = List.length l.
Proof. induction l as [| c l IH]; simpl; [reflexivity | now rewrite IH]. Qed.

Lemma str_item_uppercase (r : nat) :
  r < 26 -> str_item ascii_uppercase r = ascii_of_nat (65 + r).
Proof.
  intros Hr. do 26 (destruct r as [| r]; [reflexivity |]). lia.
Qed.

Lemma mod_26_bound (n : nat) : n mod 26 < 26.
Proof. apply Nat.mod_upper_bound. discriminate. Qed.

Lemma gen_letters_length (n : nat) : String.length (gen_letters n) = n / 26 + 1.
Proof.
  rewrite gen_letters_closed, string_of_list_ascii_length.
  rewrite length_app, repeat_length. reflexivity.
Qed.

Lemma NoDup_map_injective {A B : Type} (f : A -> B) (l : list A) :
  (forall a b, f a = f b -> a = b) -> NoDup l -> NoDup (map f l).
Proof.
  intros Hf. induction 1 as [| a l Ha Hl IH]; simpl; constructor; [| exact IH].
  intros Hin. apply in_map_iff in Hin. destruct Hin as (b & E & Hb).
  apply Hf in E. subst b. contradiction.
Qed.

(** X1.  The label that [gen_letters] yields at index [n] (from 0) is
    [n / 26] letters "A" followed by the letter number [n mod 26] of the
    alphabet; it has [n / 26 + 1] letters. *)
Theorem gen_letters_shape (n : nat) :
  gen_letters n
  = (string_of_list_ascii (repeat "A"%char (n / 26))
     ++ String (ascii_of_nat (65 + n mod 26)) "")%string
  /\ String.length (gen_letters n) = n / 26 + 1.
Proof.
  rewrite gen_letters_closed, string_of_list_ascii_app.
  rewrite str_item_uppercase by apply mod_26_bound.
  split; [reflexivity |].
  rewrite <- (str_item_uppercase (n mod 26)) by apply mod_26_bound.
  rewrite <- string_of_list_ascii_app, <- gen_letters_closed.
  apply gen_letters_length.
Qed.

Lemma gen_letters_inj (m n : nat) : gen_letters m = gen_letters n -> m = n.
Proof.
  rewrite !gen_letters_closed. intros H.
  apply (f_equal list_ascii_of_string) in H.
  rewrite !list_ascii_of_string_of_list_ascii in H.
  apply app_inj_tail in H. destruct H as [Hq Hr].
  apply (f_equal (@List.length ascii)) in Hq. rewrite !repeat_length in Hq.
  rewrite !str_item_uppercase in Hr by apply mod_26_bound.
  apply (f_equal nat_of_ascii) in Hr.
  pose proof (mod_26_bound m). pose proof (mod_26_bound n).
  rewrite !nat_ascii_embedding in Hr by lia.
  rewrite (Nat.div_mod_eq m 26), (Nat.div_mod_eq n 26). lia.
Qed.

(** X2.  [gen_letters] never yields the same label twice: labels at
    different indices differ. *)
Theorem gen_letters_injective (m n : nat) :
  m <> n -> gen_letters m <> gen_letters n.
Proof. intros Hmn H. apply Hmn, gen_letters_inj, H. Qed.

Lemma gen_letters_injective_witness : gen_letters 26 <> gen_letters 52.
Proof. apply (gen_letters_injective 26 52). discriminate. Defined.

Lemma gen_letters_upper (n : nat) : all_chars is_upper (gen_letters n) = true.
Proof.
  rewrite gen_letters_closed, string_of_list_ascii_app, all_chars_app.
  apply andb_true_iff. split.
  - induction (n / 26) as [| k IH]; [reflexivity | exact IH].
  - pose proof (mod_26_bound n) as Hr. revert Hr. generalize (n mod 26) as r.
    intros r Hr. do 26 (destruct r as [| r]; [reflexivity |]). lia.
Qed.

(** X3.  Taking the first [n] labels of the generator, as
    [get_values_from_row] does with [itertools.islice], gives exactly [n]
    labels when [n] lies between 0 and [sys.maxsize]: pairwise different,
    none empty, all made of uppercase letters.  Outside that range, with a
    negative [n] or one above [sys.maxsize], it raises [ValueError]. *)
Theorem islice_gen_letters_labels (n : Z) :
  ((n < 0)%Z \/ (maxsize < n)%Z) /\ islice_gen_letters n = Raise ValueError
  \/ (0 <= n <= maxsize)%Z
     /\ exists labels,
          islice_gen_letters n = Ok labels
          /\ List.length labels = Z.to_nat n
          /\ NoDup labels
          /\ Forall (fun label => label <> ""%string
                                  /\ all_chars is_upper label = true) labels.
Proof.
  unfold islice_gen_letters.
  destruct (Z.ltb_spec n 0) as [Hn | Hn]; [left; auto |].
  destruct (Z.ltb_spec maxsize n) as [Hm | Hm]; [left; auto | right].
  cbn [orb]. split; [lia |].
  exists (map gen_letters (seq 0 (Z.to_nat n))).
  change gen_start with (gen_at 0). rewrite islice_from_gen_at.
  split; [reflexivity |]. split; [now rewrite length_map, length_seq |].
  split.
  - apply NoDup_map_injective; [apply gen_letters_inj | apply seq_NoDup].
  - apply Forall_forall. intros label Hin.
    apply in_map_iff in Hin. destruct Hin as (i & <- & _).
    split; [| apply gen_letters_upper].
    intros E. apply (f_equal String.length) in E.
    rewrite gen_letters_length in E. simpl in E. lia.
Qed.

Local Open Scope Z_scope.

Lemma str_index_contains (s : string) (c : ascii) (i : nat) :
  str_index s c = Ok i -> contains s c = true.
Proof.
  revert i. induction s as [| d s IH]; simpl; intros i H; [discriminate |].
  destruct (Ascii.eqb d c); [reflexivity |].
  destruct (str_index s c) as [k |]; [| discriminate]. exact (IH k eq_refl).
Qed.

Lemma digit_of_ok_upper (c : ascii) (d : Z) :
  digit_of c = Ok d -> is_upper c = true.
Proof.
  unfold digit_of. intros H. apply bind_ok in H. destruct H as (i & Hi & _).
  apply str_index_contains in Hi. unfold ascii_uppercase in Hi.
  cbn [contains] in Hi.
  repeat (match type of Hi with
          | (Ascii.eqb ?a c || _) = true =>
              destruct (Ascii.eqb_spec a c) as [<- | _]; [reflexivity |];
              cbn [orb] in Hi
          end).
  discriminate Hi.
Qed.

(** The digits of a label, one for one with its letters. *)
Lemma comprehension_digits (l : list ascii) (digits : list Z) :
  comprehension digit_of l = Ok digits ->
  Forall2 (fun c d => is_upper c = true /\ d = Z.of_nat (code c) - 64) l digits.
Proof.
  revert digits. induction l as [| c l IH]; simpl; intros digits H.
  - injection H as <-. constructor.
  - apply bind_ok in H. destruct H as (d & Hd & H).
    apply bind_ok in H. destruct H as (ds & Hds & H). injection H as <-.
    constructor; [| exact (IH ds Hds)].
    pose proof (digit_of_ok_upper c d Hd) as Hup.
    destruct (digit_of_upper c Hup) as [E _]. split; [exact Hup | congruence].
Qed.

Lemma digits_range (l : list ascii) (digits : list Z) :
  Forall2 (fun c d => is_upper c = true /\ d = Z.of_nat (code c) - 64) l digits ->
  Forall (fun d => 1 <= d <= 26) digits /\ List.length digits = List.length l.
Proof.
  induction 1 as [| c d l ds [Hup ->] _ [IH1 IH2]]; simpl.
  - split; [constructor | reflexivity].
  - split; [| congruence]. constructor; [| exact IH1].
    destruct (digit_of_upper c Hup) as [_ Hc]. lia.
Qed.

Lemma digits_letters (l l' : list ascii) (digits : list Z) :
  Forall2 (fun c d => is_upper c = true /\ d = Z.of_nat (code c) - 64) l digits ->
  Forall2 (fun c d => is_upper c = true /\ d = Z.of_nat (code c) - 64) l' digits ->
  l = l'.
Proof.
  intros H. revert l'. induction H as [| c d l ds [_ Hd] _ IH]; intros l' H'.
  - inversion H'. reflexivity.
  - inversion H' as [| c' ? l'' ? [_ Hd'] Hrest]; subst.
    f_equal; [| exact (IH _ Hrest)].
    rewrite <- (ascii_nat_embedding c), <- (ascii_nat_embedding c').
    f_equal. unfold code in Hd'. lia.
Qed.

Lemma horner_snoc (digits : list Z) (d : Z) :
  horner (digits ++ [d]) = 26 * horner digits + d.
Proof. unfold horner. rewrite fold_left_app. reflexivity. Qed.

Lemma horner_bounds (digits : list Z) :
  Forall (fun d => 1 <= d <= 26) digits ->
  ones (List.length digits) <= horner digits <= 26 * ones (List.length digits).
Proof.
  induction digits as [| d digits IH] using rev_ind; intros H.
  - cbn. lia.
  - apply Forall_app in H. destruct H as [H Hd].
    inversion Hd as [| ? ? Hd1 _]; subst. specialize (IH H).
    rewrite horner_snoc, length_app. cbn [List.length].
    rewrite Nat.add_1_r. cbn [ones]. lia.
Qed.

Lemma horner_inj (ds dt : list Z) :
  Forall (fun d => 1 <= d <= 26) ds ->
  Forall (fun d => 1 <= d <= 26) dt ->
  horner ds = horner dt -> ds = dt.
Proof.
  revert dt. induction ds as [| d ds IH] using rev_ind; intros dt Hs Ht E.
  - destruct dt as [| t dt]; [reflexivity |].
    pose proof (horner_bounds _ Ht) as B. cbn [List.length ones] in B.
    change (horner []) with 0 in E.
    assert (0 <= ones (List.length dt)) by (induction (List.length dt); cbn [ones]; lia).
    lia.
  - destruct dt as [| t dt _] using rev_ind.
    + pose proof (horner_bounds _ Hs) as B.
      rewrite length_app, Nat.add_1_r in B. cbn [ones] in B.
      change (horner []) with 0 in E.
      assert (0 <= ones (List.length ds)) by (induction (List.length ds); cbn [ones]; lia).
      lia.
    + apply Forall_app in Hs, Ht. destruct Hs as [Hs Hd], Ht as [Ht Hd'].
      inversion Hd as [| ? ? Hd1 _]; inversion Hd' as [| ? ? Ht1 _]; subst.
      rewrite !horner_snoc in E.
      assert (horner ds = horner dt /\ d = t) as [E1 ->] by lia.
      now rewrite (IH dt Hs Ht E1).
Qed.

Lemma decode_digits (s : string) (z : Z) :
  get_index_from_letters s = Ok z ->
  exists digits,
    Forall2 (fun c d => is_upper c = true /\ d = Z.of_nat (code c) - 64)
            (list_ascii_of_string s) digits
    /\ z = horner digits - 1.
Proof.
  intros H. unfold get_index_from_letters in H. fold digit_of in H.
  apply bind_ok in H. destruct H as (digits & Hd & Hz).
  exists digits. split; [apply comprehension_digits, Hd |].
  fold weigh in Hz. rewrite sum_weigh_horner in Hz. congruence.
Qed.

Lemma decode_upper (s : string) (z : Z) :
  get_index_from_letters s = Ok z -> all_chars is_upper s = true.
Proof.
  intros H. apply decode_digits in H. destruct H as (digits & H & _).
  revert digits H. induction s as [| c s IH]; intros digits H; [reflexivity |].
  cbn [list_ascii_of_string] in H. inversion H as [| ? ? ? ds [Hup _] Hrest]; subst.
  cbn [all_chars]. rewrite Hup. exact (IH ds Hrest).
Qed.

Lemma decode_upper_ok (s : string) :
  all_chars is_upper s = true -> exists z, get_index_from_letters s = Ok z.
Proof.
  intros Hup.
  destruct (comprehension_total digit_of (list_ascii_of_string s))
    as (digits & Hd & _).
  { eapply Forall_impl; [| apply all_chars_Forall, Hup].
    intros c Hc. destruct (digit_of_upper c Hc) as [E _]. eauto. }
  exists (horner digits - 1). apply get_index_from_letters_horner, Hd.
Qed.

(** X4.  [get_index_from_letters] raises [ValueError] on exactly the
    labels that hold a character other than an uppercase letter, a
    lowercase letter for one. *)
Theorem get_index_from_letters_rejects (letters : string) :
  all_chars is_upper letters = false
  <-> get_index_from_letters letters = Raise ValueError.
Proof.
  split.
  - intros Hup. destruct (get_index_from_letters letters) as [z | e] eqn:E.
    + apply decode_upper in E. congruence.
    + now rewrite (get_index_from_letters_raises _ _ E).
  - intros H. destruct (all_chars is_upper letters) eqn:Hup; [| reflexivity].
    destruct (decode_upper_ok _ Hup) as [z Hz]. congruence.
Qed.

Lemma get_index_from_letters_rejects_witness :
  get_index_from_letters "Ab" = Raise ValueError.
Proof. apply (proj1 (get_index_from_letters_rejects "Ab")). reflexivity. Defined.

(** X5.  [get_index_from_letters] gives different labels different
    indices: two labels with the same index are the same label. *)
Theorem get_index_from_letters_injective (s t : string) (z : Z) :
  get_index_from_letters s = Ok z ->
  get_index_from_letters t = Ok z ->
  s = t.
Proof.
  intros Hs Ht.
  apply decode_digits in Hs, Ht.
  destruct Hs as (ds & Hs & Es), Ht as (dt & Ht & Et).
  assert (ds = dt) as ->.
  { apply horner_inj; [apply (digits_range _ _ Hs) | apply (digits_range _ _ Ht) | lia]. }
  rewrite <- (string_of_list_ascii_of_string s), <- (string_of_list_ascii_of_string t).
  f_equal. exact (digits_letters _ _ _ Hs Ht).
Qed.

Lemma get_index_from_letters_injective_witness : "AB"%string = "AB"%string.
Proof.
  apply (get_index_from_letters_injective "AB" "AB" 27); reflexivity.
Defined.

Lemma ones_mono (j k : nat) : (j <= k)%nat -> ones j <= ones k.
Proof.
  assert (forall i, 0 <= ones i) as Hpos
    by (induction i; cbn [ones]; lia).
  induction 1 as [| k _ IH]; [lia |].
  cbn [ones]. specialize (Hpos k). lia.
Qed.

Lemma decode_bounds (s : string) (z : Z) :
  get_index_from_letters s = Ok z ->
  ones (len s) - 1 <= z <= 26 * ones (len s) - 1.
Proof.
  intros H. apply decode_digits in H. destruct H as (digits & H & ->).
  apply digits_range in H. destruct H as [Hr Hlen].
  pose proof (horner_bounds _ Hr) as B. rewrite Hlen in B.
  assert (len s = List.length (list_ascii_of_string s)) as ->.
  { unfold len. rewrite <- string_of_list_ascii_length.
    now rewrite string_of_list_ascii_of_string. }
  lia.
Qed.

(** X6.  The index of a label of [k] letters lies between those of
    "A...A" and "Z...Z" with [k] letters: 0 to 25 for one letter, 26 to
    701 for two; so a longer label always has the greater index. *)
Theorem get_index_from_letters_by_length (s t : string) (zs zt : Z) :
  get_index_from_letters s = Ok zs ->
  get_index_from_letters t = Ok zt ->
  ones (len s) - 1 <= zs <= 26 * ones (len s) - 1
  /\ ((len s < len t)%nat -> zs < zt).
Proof.
  intros Hs Ht. pose proof (decode_bounds _ _ Hs) as Bs.
  split; [exact Bs |].
  intros Hlt. pose proof (decode_bounds _ _ Ht) as Bt.
  pose proof (ones_mono (S (len s)) (len t) Hlt) as Hm.
  cbn [ones] in Hm. lia.
Qed.

Lemma get_index_from_letters_by_length_witness :
  ones (len "Z") - 1 <= 25 <= 26 * ones (len "Z") - 1
  /\ ((len "Z" < len "AA")%nat -> 25 < 26).
Proof.
  apply (get_index_from_letters_by_length "Z" "AA" 25 26); reflexivity.
Defined.

(** X7.  Appending an uppercase letter to a label of index [z] gives the
    label of index [26 * (z + 1)] plus the rank of the letter, 0 for "A"
    up to 25 for "Z". *)
Theorem get_index_from_letters_append (s : string) (c : ascii) (z : Z) :
  get_index_from_letters s = Ok z ->
  is_upper c = true ->
  get_index_from_letters (s ++ String c "")
  = Ok (26 * (z + 1) + (Z.of_nat (code c) - 65)).
Proof.
  intros Hs Hc. unfold get_index_from_letters in Hs. fold digit_of in Hs.
  apply bind_ok in Hs. destruct Hs as (digits & Hd & Hz).
  fold weigh in Hz. rewrite sum_weigh_horner in Hz. injection Hz as <-.
  rewrite (get_index_from_letters_horner _ (digits ++ [Z.of_nat (code c) - 64])).
  - rewrite horner_snoc. f_equal. lia.
  - rewrite <- (string_of_list_ascii_of_string s) at 1.
    change (String c "") with (string_of_list_ascii [c]).
    rewrite <- string_of_list_ascii_app, list_ascii_of_string_of_list_ascii.
    apply comprehension_app; [exact Hd |].
    cbn [comprehension]. destruct (digit_of_upper c Hc) as [-> _]. reflexivity.
Qed.

Lemma get_index_from_letters_append_witness :
  get_index_from_letters ("A" ++ "Z") = Ok (26 * (0 + 1) + (Z.of_nat (code "Z") - 65)).
Proof.
  apply (get_index_from_letters_append "A" "Z" 0); reflexivity.
Defined.

End CodecMore.

(** ** Row materializer *)

Section RowMore.

Import Codec Row.

Local Open Scope list_scope.

(** [get_values_from_row] on a row whose keys are distinct, as those of a
    dictionary are. *)
Lemma get_values_from_row_written
    (row : dict Any) (columns : dict Field) (column_map : dict string) :
  NoDup (dict_keys row) ->
  get_values_from_row row columns column_map =
  (top <- str_max (dict_values column_map) ;;
   last_index <- get_index_from_letters top ;;
   labels <- islice_gen_letters (last_index + 1) ;;
   Ok (map (written_at row columns column_map) labels)).
Proof.
  intros Hnd. unfold get_values_from_row.
  destruct (str_max (dict_values column_map)) as [top |]; [| reflexivity].
  cbn [bind].
  destruct (get_index_from_letters top) as [z |]; [| reflexivity].
  cbn [bind].
  destruct (islice_gen_letters (z + 1)) as [labels |]; [| reflexivity].
  cbn [bind]. f_equal. apply map_ext. intros label.
  apply row_get_written, Hnd.
Qed.

Lemma islice_gen_letters_ok (n : Z) (labels : list string) :
  islice_gen_letters n = Ok labels ->
  labels = map gen_letters (seq 0 (Z.to_nat n)).
Proof.
  unfold islice_gen_letters.
  destruct ((n <? 0) || (maxsize <? n)); [discriminate |].
  intros H. injection H as <-.
  change gen_start with (gen_at 0). apply islice_from_gen_at.
Qed.

Lemma ones_nonneg (k : nat) : 0 <= ones k.
Proof. induction k; cbn [ones]; lia. Qed.

(** X8.  With a column map that is not empty, what [get_values_from_row]
    does is decided by the greatest of the labels, compared as strings.
    When that label is made of uppercase letters it has an index; the call
    returns when the index plus one is at most [sys.maxsize], and the list
    it returns has one position more than the index; with a greater index
    the call raises [ValueError], and so it does when the label holds
    another character. *)
Theorem get_values_from_row_width
    (row : dict Any) (columns : dict Field) (column_map : dict string)
    (top : string) :
  str_max (dict_values column_map) = Ok top ->
  (all_chars is_upper top = true ->
   exists last_index,
     get_index_from_letters top = Ok last_index
     /\ (last_index + 1 <= maxsize ->
         exists values,
           get_values_from_row row columns column_map = Ok values
           /\ Z.of_nat (List.length values) = last_index + 1)
     /\ (maxsize < last_index + 1 ->
         get_values_from_row row columns column_map = Raise ValueError))
  /\ (all_chars is_upper top = false ->
      get_values_from_row row columns column_map = Raise ValueError).
Proof.
  intros Htop. unfold get_values_from_row. rewrite Htop. cbn [bind]. split.
  - intros Hup. destruct (decode_upper_ok top Hup) as [z Hz].
    rewrite Hz. cbn [bind].
    pose proof (decode_bounds _ _ Hz) as B. pose proof (ones_nonneg (len top)).
    unfold islice_gen_letters.
    destruct (Z.ltb_spec (z + 1) 0) as [Hneg | _]; [lia |]. cbn [orb].
    exists z. split; [reflexivity |].
    destruct (Z.ltb_spec maxsize (z + 1)) as [Hbig | Hfit]; cbn [bind].
    + split; [lia | reflexivity].
    + split; [| lia]. intros _.
      eexists. split; [reflexivity |].
      change gen_start with (gen_at 0).
      rewrite length_map, islice_from_gen_at, length_map, length_seq. lia.
  - intros Hup.
    destruct (get_index_from_letters top) as [z |] eqn:E.
    + apply decode_upper in E. congruence.
    + now rewrite (get_index_from_letters_raises _ _ E).
Qed.

Lemma get_values_from_row_width_witness :
  (exists values,
     get_values_from_row
       [("cnt", PyInt 10)] [("cnt", raw_field)] [("cnt", "C")%string]
     = Ok values
     /\ Z.of_nat (List.length values) = 3)
  /\ get_values_from_row
       [("cnt", PyInt 10)] [("cnt", raw_field)] [("cnt", "a")%string]
     = Raise ValueError.
Proof.
  split.
  - destruct (get_values_from_row_width
                [("cnt", PyInt 10)] [("cnt", raw_field)] [("cnt", "C")%string]
                "C" eq_refl) as [H _].
    destruct (H eq_refl) as (last_index & Hidx & Hfit & _).
    vm_compute in Hidx. injection Hidx as <-.
    apply Hfit. vm_compute. discriminate.
  - apply (get_values_from_row_width
             [("cnt", PyInt 10)] [("cnt", raw_field)] [("cnt", "a")%string] "a");
      reflexivity.
Defined.

Lemma unformat_items_in
    (row : dict Any) (columns : dict Field) (k : string) (x : Any) :
  In (k, x) (unformat_items row columns) ->
  exists v field,
    In (k, v) row /\ dict_get columns k = Some field
    /\ x = to_unformatted field v.
Proof.
  induction row as [| [k0 v0] row IH]; cbn [unformat_items flat_map fst snd];
    [intros [] |].
  fold (unformat_items row columns).
  rewrite in_app_iff. intros [H | H].
  - destruct (dict_get columns k0) as [field |] eqn:E; [| destruct H].
    destruct H as [H | []]. injection H as <- <-.
    exists v0, field. split; [left; reflexivity | auto].
  - destruct (IH H) as (v & field & Hin & Hf & Hx).
    exists v, field. split; [right; exact Hin | auto].
Qed.

Lemma last_labelled_skip
    (column_map : dict string) (label : string)
    (items : dict Any) (start : option Any) :
  (forall k x, In (k, x) items -> dict_get column_map k <> Some label) ->
  last_labelled column_map label items start = start.
Proof.
  unfold last_labelled. revert start.
  induction items as [| [k x] items IH]; intros start H; [reflexivity |].
  cbn [fold_left fst snd].
  rewrite IH by (intros k' x' Hin; apply (H k' x'); right; exact Hin).
  specialize (H k x (or_introl eq_refl)).
  destruct (dict_get column_map k) as [l |]; [| reflexivity].
  destruct (String.eqb_spec l label) as [-> | _]; [congruence | reflexivity].
Qed.

Lemma last_labelled_some
    (column_map : dict string) (label : string)
    (items : dict Any) (start : option Any) (x : Any) :
  last_labelled column_map label items start = Some x ->
  start = Some x
  \/ exists k, In (k, x) items /\ dict_get column_map k = Some label.
Proof.
  unfold last_labelled. revert start.
  induction items as [| [k y] items IH]; intros start H; [left; exact H |].
  cbn [fold_left fst snd] in H.
  apply IH in H. destruct H as [H | (k' & Hin & Hk')].
  - destruct (dict_get column_map k) as [l |] eqn:E; [| left; exact H].
    destruct (String.eqb_spec l label) as [-> | _]; [| left; exact H].
    injection H as ->. right. exists k. split; [left; reflexivity | exact E].
  - right. exists k'. split; [right; exact Hin | exact Hk'].
Qed.

Lemma dict_keys_in {V : Type} (d : dict V) (k : string) (v : V) :
  In (k, v) d -> In k (dict_keys d).
Proof. intros H. apply (in_map fst) in H. exact H. Qed.

(** With a collision-free column map, what is written under the label
    of a field is the value of that field, wherever it stands in the row. *)
Lemma written_at_in
    (row : dict Any) (columns : dict Field) (column_map : dict string)
    (k label : string) (v : Any) (field : Field) :
  NoDup (dict_keys row) ->
  collision_free column_map ->
  In (k, v) row ->
  dict_get columns k = Some field ->
  dict_get column_map k = Some label ->
  written_at row columns column_map label = to_unformatted field v.
Proof.
  intros Hnd Hfree Hin Hf Hl.
  apply in_split in Hin. destruct Hin as (r1 & r2 & ->).
  unfold written_at, unformat_items.
  rewrite flat_map_app. cbn [flat_map fst snd]. rewrite Hf.
  fold (unformat_items r1 columns). fold (unformat_items r2 columns).
  unfold last_labelled. rewrite fold_left_app. cbn [app fold_left fst snd].
  rewrite Hl, String.eqb_refl.
  pose proof (last_labelled_skip column_map label (unformat_items r2 columns)
                (Some (to_unformatted field v))) as Hskip.
  unfold last_labelled in Hskip. rewrite Hskip; [reflexivity |].
  intros k' x Hx Hk'.
  assert (k' = k) as -> by exact (Hfree _ _ _ Hk' Hl).
  apply unformat_items_in in Hx. destruct Hx as (v' & _ & Hin' & _).
  apply dict_keys_in in Hin'.
  unfold dict_keys in Hnd. rewrite map_app in Hnd. cbn [map fst] in Hnd.
  apply NoDup_remove_2 in Hnd. apply Hnd, in_or_app. right. exact Hin'.
Qed.

Lemma written_at_cases
    (row : dict Any) (columns : dict Field) (column_map : dict string)
    (label : string) :
  written_at row columns column_map label = PyNone
  \/ exists k v field,
       In (k, v) row /\ dict_get columns k = Some field
       /\ dict_get column_map k = Some label
       /\ written_at row columns column_map label = to_unformatted field v.
Proof.
  unfold written_at.
  destruct (last_labelled column_map label (unformat_items row columns) None)
    as [x |] eqn:E; [| left; reflexivity].
  apply last_labelled_some in E. destruct E as [E | (k & Hin & Hk)];
    [discriminate |].
  apply unformat_items_in in Hin. destruct Hin as (v & field & Hin & Hf & ->).
  right. exists k, v, field. auto.
Qed.

Lemma written_at_none
    (row : dict Any) (columns : dict Field) (column_map : dict string)
    (label : string) :
  (forall k v, In (k, v) row -> goes_under columns column_map label (k, v) = false) ->
  written_at row columns column_map label = PyNone.
Proof.
  intros H.
  destruct (written_at_cases row columns column_map label)
    as [E | (k & v & field & Hin & Hf & Hl & _)]; [exact E |].
  specialize (H k v Hin). unfold goes_under in H. cbn [fst] in H.
  rewrite Hf, Hl, String.eqb_refl in H. discriminate.
Qed.

Lemma get_values_from_row_ok
    (row : dict Any) (columns : dict Field) (column_map : dict string)
    (values : list Any) :
  NoDup (dict_keys row) ->
  get_values_from_row row columns column_map = Ok values ->
  exists top last_index,
    str_max (dict_values column_map) = Ok top
    /\ get_index_from_letters top = Ok last_index
    /\ values = map (fun i => written_at row columns column_map (gen_letters i))
                    (seq 0 (Z.to_nat (last_index + 1))).
Proof.
  intros Hnd H. rewrite get_values_from_row_written in H by exact Hnd.
  apply bind_ok in H. destruct H as (top & Htop & H).
  apply bind_ok in H. destruct H as (z & Hz & H).
  apply bind_ok in H. destruct H as (labels & Hlabels & H).
  injection H as <-. apply islice_gen_letters_ok in Hlabels. subst labels.
  exists top, z. rewrite map_map. auto.
Qed.

Lemma nth_error_written
    (row : dict Any) (columns : dict Field) (column_map : dict string)
    (n i : nat) (x : Any) :
  nth_error (map (fun i => written_at row columns column_map (gen_letters i))
                 (seq 0 n)) i = Some x ->
  (i < n)%nat /\ x = written_at row columns column_map (gen_letters i).
Proof.
  rewrite nth_error_map, nth_error_seq.
  destruct (Nat.ltb_spec i n) as [Hlt | _]; [| discriminate].
  cbn [option_map]. intros H. injection H as <-. auto.
Qed.

(** X10.  Every position of the list that [get_values_from_row] returns
    holds either [None] or the serialized value of an item of the row
    whose field the column map sends to the label of that position; it
    holds [None] whenever the row has no such item. *)
Theorem get_values_from_row_positions
    (row : dict Any) (columns : dict Field) (column_map : dict string)
    (values : list Any) (i : nat) (x : Any) :
  NoDup (dict_keys row) ->
  get_values_from_row row columns column_map = Ok values ->
  nth_error values i = Some x ->
  (x = PyNone
   \/ exists k v field,
        In (k, v) row /\ dict_get columns k = Some field
        /\ dict_get column_map k = Some (gen_letters i)
        /\ x = to_unformatted field v)
  /\ ((forall k v, In (k, v) row ->
         goes_under columns column_map (gen_letters i) (k, v) = false) ->
      x = PyNone).
Proof.
  intros Hnd H Hx.
  apply get_values_from_row_ok in H; [| exact Hnd].
  destruct H as (top & z & _ & _ & ->).
  apply nth_error_written in Hx. destruct Hx as [_ ->]. split.
  - destruct (written_at_cases row columns column_map (gen_letters i))
      as [E | (k & v & field & H1 & H2 & H3 & H4)]; [left; exact E | right].
    exists k, v, field. auto.
  - apply written_at_none.
Qed.

Lemma get_values_from_row_positions_witness :
  (PyNone = PyNone
   \/ exists k v field,
        In (k, v) [("country", PyStr "BR"); ("cnt", PyInt 10)]
        /\ dict_get [("country", raw_field); ("cnt", raw_field)] k = Some field
        /\ dict_get [("country", "A"); ("cnt", "C")]%string k = Some (gen_letters 1)
        /\ PyNone = to_unformatted field v)
  /\ ((forall k v, In (k, v) [("country", PyStr "BR"); ("cnt", PyInt 10)] ->
         goes_under [("country", raw_field); ("cnt", raw_field)]
           [("country", "A"); ("cnt", "C")]%string (gen_letters 1) (k, v) = false) ->
      PyNone = PyNone).
Proof.
  apply (get_values_from_row_positions
           [("country", PyStr "BR"); ("cnt", PyInt 10)]
           [("country", raw_field); ("cnt", raw_field)]
           [("country", "A"); ("cnt", "C")]%string
           [PyStr "BR"; PyNone; PyInt 10] 1 PyNone).
  - repeat constructor; simpl; intuition discriminate.
  - reflexivity.
  - reflexivity.
Defined.

Lemma ascii_compare_code (a b : ascii) :
  match Ascii.compare a b with
  | Eq => code a = code b
  | Lt => (code a < code b)%nat
  | Gt => (code b < code a)%nat
  end.
Proof.
  unfold Ascii.compare, code, nat_of_ascii.
  destruct (N.compare_spec (N_of_ascii a) (N_of_ascii b)) as [E | L | L]; lia.
Qed.

Lemma ltb_head_rank (a b : string) :
  if String.ltb a b then (head_rank a <= head_rank b)%nat
  else (head_rank b <= head_rank a)%nat.
Proof.
  unfold String.ltb.
  destruct a as [| c1 a], b as [| c2 b]; cbn [String.compare head_rank]; try lia.
  pose proof (ascii_compare_code c1 c2) as H.
  destruct (Ascii.compare c1 c2); [| lia | lia].
  destruct (String.compare a b); lia.
Qed.

Lemma str_max_head_rank (l : list string) (top x : string) :
  str_max l = Ok top -> In x l -> (head_rank x <= head_rank top)%nat.
Proof.
  destruct l as [| x0 l]; [discriminate |]. cbn [str_max].
  intros H. injection H as <-.
  assert (forall m,
            (head_rank m <= head_rank
               (fold_left (fun m item => if String.ltb m item then item else m) l m))%nat
            /\ forall y, In y l ->
                 (head_rank y <= head_rank
                    (fold_left (fun m item => if String.ltb m item then item else m) l m))%nat)
    as Hfold.
  { induction l as [| y l IH]; intros m; cbn [fold_left].
    - split; [lia | intros y []].
    - pose proof (ltb_head_rank m y) as Hcmp.
      destruct (String.ltb m y);
        [destruct (IH y) as [H1 H2] | destruct (IH m) as [H1 H2]];
        (split; [lia | intros z [<- | Hz]; [lia | exact (H2 z Hz)]]). }
  destruct (Hfold x0) as [H1 H2].
  intros [<- | Hx]; [exact H1 | exact (H2 x Hx)].
Qed.

Lemma dict_get_in_values {V : Type} (d : dict V) (k : string) (v : V) :
  dict_get d k = Some v -> In v (dict_values d).
Proof.
  induction d as [| [k0 v0] d IH]; simpl; [discriminate |].
  destruct (String.eqb k0 k); [intros H; injection H as ->; auto | auto].
Qed.

Lemma decode_single (c : ascii) :
  is_upper c = true ->
  get_index_from_letters (String c "") = Ok (Z.of_nat (code c) - 65).
Proof.
  intros Hc. rewrite (get_index_from_letters_horner _ [Z.of_nat (code c) - 64]).
  - f_equal. cbn. lia.
  - cbn [list_ascii_of_string comprehension].
    destruct (digit_of_upper c Hc) as [-> _]. reflexivity.
Qed.

Lemma gen_letters_single (c : ascii) :
  is_upper c = true -> gen_letters (code c - 65) = String c "".
Proof.
  revert c. apply upper_case_analysis. intros i Hi.
  do 26 (destruct i as [| i]; [reflexivity |]). lia.
Qed.

Lemma country_cnt_collision_free :
  collision_free [("country", "A"); ("cnt", "C")]%string.
Proof.
  intros k1 k2 label. cbn [dict_get].
  destruct (String.eqb_spec "country" k1), (String.eqb_spec "country" k2),
           (String.eqb_spec "cnt" k1), (String.eqb_spec "cnt" k2);
    congruence.
Qed.

(** X9.  With a collision-free column map, the value of a field of the
    row that is mapped to a single uppercase letter, the case of the
    first 26 columns, sits in the result at the index of that letter, 0
    for "A" up to 25 for "Z", serialized by the field, whatever the order
    of the row and of the column map. *)
Theorem get_values_from_row_single_letter
    (row : dict Any) (columns : dict Field) (column_map : dict string)
    (values : list Any) (k : string) (v : Any) (field : Field) (c : ascii) :
  NoDup (dict_keys row) ->
  collision_free column_map ->
  get_values_from_row row columns column_map = Ok values ->
  In (k, v) row ->
  dict_get columns k = Some field ->
  dict_get column_map k = Some (String c "") ->
  is_upper c = true ->
  nth_error values (code c - 65) = Some (to_unformatted field v).
Proof.
  intros Hnd Hfree H Hin Hf Hl Hc.
  apply get_values_from_row_ok in H; [| exact Hnd].
  destruct H as (top & z & Htop & Hz & ->).
  pose proof (str_max_head_rank _ _ _ Htop (dict_get_in_values _ _ _ Hl)) as Hrank.
  pose proof (decode_upper _ _ Hz) as Hup.
  destruct (digit_of_upper c Hc) as [_ Hcode].
  assert (Z.of_nat (code c) - 65 <= z) as Hle.
  { destruct top as [| c' rest]; cbn [head_rank] in Hrank; [lia |].
    cbn [all_chars] in Hup. apply andb_true_iff in Hup. destruct Hup as [Hc' _].
    destruct rest as [| c'' rest].
    - rewrite (decode_single c' Hc') in Hz. injection Hz as <-. lia.
    - pose proof (decode_bounds _ _ Hz) as B.
      pose proof (ones_mono 2 (len (String c' (String c'' rest)))
                    ltac:(cbn; lia)) as Hm.
      cbn [ones] in Hm. lia. }
  rewrite nth_error_map, nth_error_seq.
  destruct (Nat.ltb_spec (code c - 65) (Z.to_nat (z + 1))) as [_ | Hge]; [| lia].
  cbn [option_map Nat.add]. f_equal.
  rewrite (gen_letters_single c Hc).
  exact (written_at_in _ _ _ _ _ _ _ Hnd Hfree Hin Hf Hl).
Qed.

Lemma get_values_from_row_single_letter_witness :
  nth_error [PyStr "BR"; PyNone; PyInt 10] (code "C" - 65)
  = Some (to_unformatted raw_field (PyInt 10)).
Proof.
  apply (get_values_from_row_single_letter
           [("cnt", PyInt 10); ("country", PyStr "BR")]
           [("country", raw_field); ("cnt", raw_field)]
           [("country", "A"); ("cnt", "C")]%string
           [PyStr "BR"; PyNone; PyInt 10] "cnt" (PyInt 10) raw_field "C").
  - repeat constructor; simpl; intuition discriminate.
  - exact country_cnt_collision_free.
  - reflexivity.
  - simpl. auto.
  - reflexivity.
  - reflexivity.
  - reflexivity.
Defined.

Lemma written_at_remove
    (r1 r2 : dict Any) (columns : dict Field) (column_map : dict string)
    (k label : string) (v : Any) :
  dict_get column_map k = None \/ dict_get columns k = None ->
  written_at (r1 ++ (k, v) :: r2) columns column_map label
  = written_at (r1 ++ r2) columns column_map label.
Proof.
  intros H. unfold written_at, unformat_items, last_labelled.
  rewrite !flat_map_app. cbn [flat_map fst snd].
  destruct (dict_get columns k) as [field |]; [| reflexivity].
  destruct H as [H | H]; [| discriminate].
  rewrite !fold_left_app. cbn [app fold_left fst snd]. now rewrite H.
Qed.

(** X11.  An item of the row whose field has no entry in the column map,
    or none in [columns], changes nothing: the result is the one of the
    row without that item. *)
Theorem get_values_from_row_ignores
    (r1 r2 : dict Any) (columns : dict Field) (column_map : dict string)
    (k : string) (v : Any) :
  NoDup (dict_keys (r1 ++ (k, v) :: r2)) ->
  dict_get column_map k = None \/ dict_get columns k = None ->
  get_values_from_row (r1 ++ (k, v) :: r2) columns column_map
  = get_values_from_row (r1 ++ r2) columns column_map.
Proof.
  intros Hnd H.
  assert (NoDup (dict_keys (r1 ++ r2))) as Hnd'.
  { unfold dict_keys in *. rewrite map_app in *. cbn [map fst] in Hnd.
    exact (NoDup_remove_1 _ _ _ Hnd). }
  rewrite !get_values_from_row_written by assumption.
  destruct (str_max (dict_values column_map)) as [top |]; [| reflexivity].
  cbn [bind].
  destruct (get_index_from_letters top) as [z |]; [| reflexivity].
  cbn [bind].
  destruct (islice_gen_letters (z + 1)) as [labels |]; [| reflexivity].
  cbn [bind]. f_equal. apply map_ext. intros label.
  apply written_at_remove, H.
Qed.

Lemma get_values_from_row_ignores_witness :
  get_values_from_row
    ([("country", PyStr "BR")] ++ ("note", PyStr "x") :: [("cnt", PyInt 10)])
    [("country", raw_field); ("cnt", raw_field); ("note", raw_field)]
    [("country", "A"); ("cnt", "C")]%string
  = get_values_from_row
      ([("country", PyStr "BR")] ++ [("cnt", PyInt 10)])
      [("country", raw_field); ("cnt", raw_field); ("note", raw_field)]
      [("country", "A"); ("cnt", "C")]%string.
Proof.
  apply (get_values_from_row_ignores
           [("country", PyStr "BR")] [("cnt", PyInt 10)]).
  - repeat constructor; simpl; intuition discriminate.
  - left. reflexivity.
Defined.

(** X12.  With a collision-free column map the result does not depend on
    the iteration order of the row: two rows with the same items in
    different orders give the same list. *)
Theorem get_values_from_row_row_order
    (row row' : dict Any) (columns : dict Field) (column_map : dict string) :
  NoDup (dict_keys row) ->
  collision_free column_map ->
  Permutation row row' ->
  get_values_from_row row columns column_map
  = get_values_from_row row' columns column_map.
Proof.
  intros Hnd Hfree Hperm.
  assert (NoDup (dict_keys row')) as Hnd'.
  { eapply Permutation_NoDup; [| exact Hnd]. now apply Permutation_map. }
  rewrite !get_values_from_row_written by assumption.
  destruct (str_max (dict_values column_map)) as [top |]; [| reflexivity].
  cbn [bind].
  destruct (get_index_from_letters top) as [z |]; [| reflexivity].
  cbn [bind].
  destruct (islice_gen_letters (z + 1)) as [labels |]; [| reflexivity].
  cbn [bind]. f_equal. apply map_ext. intros label.
  destruct (existsb (goes_under columns column_map label) row) eqn:Ex.
  - apply existsb_exists in Ex. destruct Ex as ([k v] & Hin & G).
    unfold goes_under in G. cbn [fst] in G.
    destruct (dict_get columns k) as [field |] eqn:Hf; [| discriminate].
    destruct (dict_get column_map k) as [l |] eqn:Hl; [| discriminate].
    apply String.eqb_eq in G. subst l.
    rewrite (written_at_in row columns column_map k label v field)
      by assumption.
    symmetry.
    apply (written_at_in row' columns column_map k label v field);
      try assumption.
    exact (Permutation_in _ Hperm Hin).
  - assert (forall k v, In (k, v) row ->
              goes_under columns column_map label (k, v) = false) as Hnone.
    { intros k v Hin.
      destruct (goes_under columns column_map label (k, v)) eqn:G;
        [| reflexivity].
      rewrite <- Ex. symmetry. apply existsb_exists. exists (k, v). auto. }
    rewrite (written_at_none row) by exact Hnone.
    symmetry. apply written_at_none. intros k v Hin.
    apply Hnone. exact (Permutation_in _ (Permutation_sym Hperm) Hin).
Qed.

Lemma get_values_from_row_row_order_witness :
  get_values_from_row
    [("country", PyStr "BR"); ("cnt", PyInt 10)]
    [("country", raw_field); ("cnt", raw_field)]
    [("country", "A"); ("cnt", "C")]%string
  = get_values_from_row
      [("cnt", PyInt 10); ("country", PyStr "BR")]
      [("country", raw_field); ("cnt", raw_field)]
      [("country", "A"); ("cnt", "C")]%string.
Proof.
  apply get_values_from_row_row_order.
  - repeat constructor; simpl; intuition discriminate.
  - exact country_cnt_collision_free.
  - apply perm_swap.
Defined.

End RowMore.

(** ** URL builder *)

Section UrlMore.

Import Urllib Url.

Lemma len_app (a b : string) : len (a ++ b) = (len a + len b)%nat.
Proof.
  unfold len. induction a as [| c a IH]; simpl; [reflexivity | now rewrite IH].
Qed.

Lemma drop_app (a b : string) : drop (len a) (a ++ b) = b.
Proof. induction a as [| c a IH]; simpl; [reflexivity | exact IH]. Qed.

Lemma take_app (a b : string) : take (len a) (a ++ b) = a.
Proof.
  induction a as [| c a IH]; simpl; [now destruct b | now rewrite IH].
Qed.

Lemma endswith_app (a suffix : string) : endswith (a ++ suffix) suffix = true.
Proof.
  unfold endswith. rewrite len_app.
  replace (len a + len suffix - len suffix)%nat with (len a) by lia.
  rewrite drop_app, String.eqb_refl, andb_true_r.
  apply Nat.leb_le. lia.
Qed.

Lemma drop_last_app (a suffix : string) :
  drop_last (len suffix) (a ++ suffix) = a.
Proof.
  unfold drop_last. rewrite len_app.
  replace (len a + len suffix - len suffix)%nat with (len a) by lia.
  apply take_app.
Qed.

Lemma gviz_path_edit (p : string) :
  gviz_path (p ++ "/edit") = rstrip (Ascii.eqb "/") p ++ "/gviz/tq".
Proof.
  unfold gviz_path. rewrite endswith_app, drop_last_app. reflexivity.
Qed.

(** What [rstrip] leaves does not end with a stripped character. *)
Lemma rstrip_last (p : ascii -> bool) (s : string) :
  rstrip p s = ""
  \/ exists r d, rstrip p s = r ++ String d "" /\ p d = false.
Proof.
  induction s as [| c s IH]; [left; reflexivity |].
  cbn [rstrip]. destruct (rstrip p s) as [| c' r'] eqn:E.
  - destruct (p c) eqn:Hc; [left; reflexivity | right].
    exists "", c. auto.
  - right. destruct IH as [IH | (r & d & IH & Hd)]; [discriminate |].
    exists (String c r), d. rewrite IH. auto.
Qed.

Lemma span_netloc_rest (s : string) :
  snd (span_netloc s) = ""
  \/ exists d r, snd (span_netloc s) = String d r
                 /\ (d = "/" \/ d = "?" \/ d = "#")%char.
Proof.
  induction s as [| d s IH]; [left; reflexivity |].
  cbn [span_netloc].
  destruct (Ascii.eqb d "/" || Ascii.eqb d "?" || Ascii.eqb d "#") eqn:E.
  - right. exists d, s. split; [reflexivity |].
    rewrite !orb_true_iff, !Ascii.eqb_eq in E. tauto.
  - destruct (span_netloc s) as [domain rest]. exact IH.
Qed.

Lemma starts_in_before (allowed : ascii -> bool) (c : ascii) (s : string) :
  starts_in allowed s = true ->
  starts_in (fun d => allowed d && negb (Ascii.eqb d c))
    (fst match split1 c s with
         | Some (before, after) => (before, after)
         | None => (s, "")
         end) = true.
Proof.
  destruct s as [| d s]; [reflexivity |]. cbn [starts_in split1].
  intros Hd. destruct (Ascii.eqb d c) eqn:E; [reflexivity |].
  destruct (split1 c s) as [[b a] |]; cbn [fst starts_in]; now rewrite Hd, E.
Qed.

Lemma starts_in_impl (p q : ascii -> bool) (s : string) :
  (forall c, p c = true -> q c = true) ->
  starts_in p s = true -> starts_in q s = true.
Proof. intros Hpq. destruct s; [reflexivity | apply Hpq]. Qed.

Lemma rooted_app (a b : string) :
  rooted a = true -> rooted b = true -> rooted (a ++ b) = true.
Proof. destruct a; [intros _ H; exact H | intros H _; exact H]. Qed.

Lemma rooted_prefix (a b : string) :
  rooted (a ++ b) = true -> a = "" \/ rooted a = true.
Proof. destruct a; [left; reflexivity | right; assumption]. Qed.

Lemma splitparams_rooted (url : string) :
  rooted url = true -> rooted (fst (splitparams url)) = true.
Proof.
  intros H. unfold splitparams.
  destruct (rsplit1 "/" url) as [[before segment] |] eqn:E.
  - destruct (split1 ";" segment) as [[name params] |] eqn:E'; [| exact H].
    apply rsplit1_some in E. subst url. cbn [fst].
    destruct before; [reflexivity | exact H].
  - destruct (split1 ";" url) as [[name params] |] eqn:E'; [| exact H].
    apply split1_some in E'. destruct E' as [-> _]. cbn [fst].
    destruct name; [reflexivity | exact H].
Qed.

(** After a network location the path of a parsed URL is empty or starts
    with a slash. *)
Lemma urlparse_rooted (uri : string) (parts : ParseResult) :
  urlparse uri = Ok parts ->
  netloc parts <> "" ->
  rooted (path parts) = true.
Proof.
  unfold urlparse, urlsplit. intros H.
  set (url0 := remove_all is_unsafe_url_byte (lstrip is_c0_control_or_space uri)) in H.
  destruct (split_scheme url0) as [sch url1].
  destruct (startswith url1 "//").
  - pose proof (span_netloc_rest (drop 2 url1)) as Hrest.
    destruct (span_netloc (drop 2 url1)) as [net rest]. cbn [snd] in Hrest.
    destruct (contains net "[" && negb (contains net "]")
              || contains net "]" && negb (contains net "[")); [discriminate H |].
    cbn [bind] in H.
    assert (starts_in (fun d => Ascii.eqb d "/" || Ascii.eqb d "?" || Ascii.eqb d "#")
              rest = true) as H1.
    { destruct Hrest as [-> | (d & r & -> & [-> | [-> | ->]])]; reflexivity. }
    apply (starts_in_before _ "#") in H1.
    destruct (match split1 "#" rest with
              | Some (before, after) => (before, after)
              | None => (rest, "")
              end) as [url3 frag]. cbn [fst] in H1.
    apply (starts_in_before _ "?") in H1.
    destruct (match split1 "?" url3 with
              | Some (before, after) => (before, after)
              | None => (url3, "")
              end) as [url4 qs]. cbn [fst] in H1.
    assert (rooted url4 = true) as H4.
    { revert H1. apply starts_in_impl. intros c Hc. cbv beta in Hc.
      rewrite Ascii.eqb_sym.
      destruct (Ascii.eqb c "/"), (Ascii.eqb c "?"), (Ascii.eqb c "#");
        (reflexivity || discriminate Hc). }
    cbn [bind] in H. pose proof (splitparams_rooted url4 H4) as Hp.
    destruct (str_in sch uses_params && contains url4 ";").
    + destruct (splitparams url4) as [u p]. cbn [fst] in Hp.
      injection H as <-. intros _. exact Hp.
    + injection H as <-. intros _. exact H4.
  - cbn [bind] in H.
    destruct (match split1 "#" url1 with
              | Some (before, after) => (before, after)
              | None => (url1, "")
              end) as [url3 frag].
    destruct (match split1 "?" url3 with
              | Some (before, after) => (before, after)
              | None => (url3, "")
              end) as [url4 qs].
    cbn [bind] in H.
    destruct (str_in sch uses_params && contains url4 ";");
      [destruct (splitparams url4) as [u p] |];
      injection H as <-; intros Hnet; now contradiction Hnet.
Qed.

Lemma rstrip_rooted (p : ascii -> bool) (s : string) :
  rooted s = true -> rooted (rstrip p s) = true.
Proof.
  destruct s as [| c s]; [reflexivity |]. cbn [rstrip].
  intros H. destruct (rstrip p s); [destruct (p c) |]; auto.
Qed.

Lemma take_rooted (n : nat) (s : string) :
  rooted s = true -> rooted (take n s) = true.
Proof. destruct n, s; auto. Qed.

Lemma urlunsplit_rooted (sch net p : string) :
  sch <> "" -> net <> "" -> rooted p = true ->
  urlunsplit sch net p "" "" = sch ++ "://" ++ net ++ p.
Proof.
  intros Hs Hn Hp. unfold urlunsplit.
  destruct (String.eqb_spec net "") as [E | _]; [contradiction |].
  destruct (String.eqb_spec sch "") as [E | _]; [contradiction |].
  cbn [negb orb String.eqb].
  destruct p as [| c p]; [reflexivity |].
  cbn [rooted starts_in] in Hp. apply Ascii.eqb_eq in Hp. subst c.
  reflexivity.
Qed.

(** X13.  For a URL with a scheme and a network location, [get_url]
    returns scheme://location, a stem, "/gviz/tq?" and the query.  The
    stem is the path of the input without its trailing slashes, after one
    "/edit" has been taken from its end if the path ends so: it never
    ends with a slash, so exactly one slash stands before "gviz". *)
Theorem get_url_rewrites_path
    (uri : string) (parts : ParseResult)
    (headers gid : Z) (sheet : option string) (url : string) :
  urlparse uri = Ok parts ->
  scheme parts <> "" ->
  netloc parts <> "" ->
  get_url uri headers gid sheet = Ok url ->
  exists stem q,
    url = scheme parts ++ "://" ++ netloc parts ++ stem ++ "/gviz/tq?" ++ q
    /\ (stem = "" \/ exists r d, stem = r ++ String d "" /\ d <> "/"%char)
    /\ (forall p, path parts = p ++ "/edit" -> stem = rstrip (Ascii.eqb "/") p)
    /\ (endswith (path parts) "/edit" = false ->
        stem = rstrip (Ascii.eqb "/") (path parts)).
Proof.
  intros Hparts Hs Hn H. apply get_url_ok in H.
  destruct H as (parts' & h' & g' & s' & Hparts' & _ & ->).
  assert (parts' = parts) as -> by congruence.
  pose proof (urlparse_rooted _ _ Hparts Hn) as Hroot.
  set (trimmed := if endswith (path parts) "/edit"
                  then drop_last (len "/edit") (path parts)
                  else path parts).
  exists (rstrip (Ascii.eqb "/") trimmed), (urlencode (url_args h' g' s')).
  assert (rooted trimmed = true) as Htrim.
  { subst trimmed. destruct (endswith (path parts) "/edit");
      [apply take_rooted |]; exact Hroot. }
  split; [| split; [| split]].
  - rewrite urlunparse_query by apply urlencode_url_args_nonempty.
    rewrite urlunsplit_rooted; try assumption.
    + unfold gviz_path. fold trimmed. cbn [join].
      rewrite !app_assoc_str. reflexivity.
    + unfold gviz_path. fold trimmed. cbn [join].
      apply rooted_app; [apply rstrip_rooted, Htrim | reflexivity].
  - destruct (rstrip_last (Ascii.eqb "/") trimmed) as [E | (r & d & E & Hd)];
      [left; exact E | right].
    exists r, d. split; [exact E |].
    intros ->. discriminate Hd.
  - intros p Hp. subst trimmed. rewrite Hp, endswith_app.
    now rewrite drop_last_app.
  - intros Hend. subst trimmed. now rewrite Hend.
Qed.

Lemma get_url_rewrites_path_witness :
  exists stem q,
    "https://x/y/d/ID/gviz/tq?gid=7"%string
    = "https" ++ "://" ++ "x" ++ stem ++ "/gviz/tq?" ++ q
    /\ (stem = "" \/ exists r d, stem = r ++ String d "" /\ d <> "/"%char)
    /\ (forall p, "/y/d/ID/edit"%string = p ++ "/edit" ->
                  stem = rstrip (Ascii.eqb "/") p)
    /\ (endswith "/y/d/ID/edit" "/edit" = false ->
        stem = rstrip (Ascii.eqb "/") "/y/d/ID/edit").
Proof.
  apply (get_url_rewrites_path "https://x/y/d/ID/edit?gid=3#gid=7"
           (mk_parts "https" "x" "/y/d/ID/edit" "" "gid=3" "gid=7") 0 0 None).
  - reflexivity.
  - discriminate.
  - discriminate.
  - reflexivity.
Defined.

(** X14.  [get_url] reads the query of its input for "headers", "gid" and
    "sheet" only: two URLs with the same scheme, network location, path
    and fragment whose queries agree on these three parameters give the
    same result, whatever else the queries and the path parameters hold. *)
Theorem get_url_ignores_other_parameters
    (uri1 uri2 : string) (parts1 parts2 : ParseResult)
    (headers gid : Z) (sheet : option string) :
  urlparse uri1 = Ok parts1 ->
  urlparse uri2 = Ok parts2 ->
  scheme parts1 = scheme parts2 ->
  netloc parts1 = netloc parts2 ->
  path parts1 = path parts2 ->
  fragment parts1 = fragment parts2 ->
  query_param "headers" parts1 = query_param "headers" parts2 ->
  query_param "gid" parts1 = query_param "gid" parts2 ->
  query_param "sheet" parts1 = query_param "sheet" parts2 ->
  get_url uri1 headers gid sheet = get_url uri2 headers gid sheet.
Proof.
  intros H1 H2 Hs Hn Hp Hf Hh Hg Hsh.
  unfold get_url. rewrite H1, H2. cbn [bind].
  rewrite !resolve_params, Hs, Hn, Hp, Hf, Hh, Hg, Hsh. reflexivity.
Qed.

Lemma get_url_ignores_other_parameters_witness :
  get_url "https://x/y/d/ID/edit;v=1?gid=3&range=A1&sync_mode=batch" 0 0 None
  = get_url "https://x/y/d/ID/edit?gid=3" 0 0 None.
Proof.
  apply (get_url_ignores_other_parameters
           "https://x/y/d/ID/edit;v=1?gid=3&range=A1&sync_mode=batch"
           "https://x/y/d/ID/edit?gid=3"
           (mk_parts "https" "x" "/y/d/ID/edit" "v=1"
              "gid=3&range=A1&sync_mode=batch" "")
           (mk_parts "https" "x" "/y/d/ID/edit" "" "gid=3" ""));
    reflexivity.
Defined.


Ltac every_ascii c :=
  destruct c as [[|] [|] [|] [|] [|] [|] [|] [|]].

Lemma append_nil_r (a : string) : a ++ "" = a.
Proof. induction a as [| c a IH]; simpl; [reflexivity | now rewrite IH]. Qed.

Lemma split_cons (c : ascii) (s : string) :
  exists piece pieces, split c s = piece :: pieces.
Proof.
  induction s as [| d s (piece & pieces & IH)]; cbn [split]; [eauto |].
  destruct (Ascii.eqb d c); [eauto |]. rewrite IH. eauto.
Qed.

Lemma join_empty_cons (x : string) (l : list string) :
  join "" (x :: l) = x ++ join "" l.
Proof.
  destruct l as [| y l]; cbn [join]; [now rewrite append_nil_r | reflexivity].
Qed.

Lemma unquote_cons (d : ascii) (s : string) :
  Ascii.eqb d "%" = false -> unquote (String d s) = String d (unquote s).
Proof.
  intros Hd. unfold unquote. cbn [split]. rewrite Hd.
  destruct (split_cons "%" s) as (piece & pieces & ->). reflexivity.
Qed.

Lemma percent_decodes (d : ascii) :
  Ascii.eqb (hex_digit (code d / 16)) "%" = false
  /\ Ascii.eqb (hex_digit (code d mod 16)) "%" = false
  /\ unquote_item
       (String (hex_digit (code d / 16)) (String (hex_digit (code d mod 16)) ""))
     = String d "".
Proof. every_ascii d; vm_compute; repeat split. Qed.

Lemma unquote_item_tail (a b c : ascii) (r : string) :
  unquote_item (String a (String b "")) = String c "" ->
  unquote_item (String a (String b r)) = String c r.
Proof.
  unfold unquote_item.
  destruct (hex_value a), (hex_value b); intros H; try discriminate H.
  injection H as <-. reflexivity.
Qed.

Lemma unquote_percent (d : ascii) (s : string) :
  unquote (percent d ++ s) = String d (unquote s).
Proof.
  destruct (percent_decodes d) as (HX & HY & Hitem).
  unfold unquote, percent. cbn [append split]. rewrite Ascii.eqb_refl, HX, HY.
  destruct (split_cons "%" s) as (piece & pieces & ->).
  cbn [app map]. rewrite join_empty_cons.
  rewrite (unquote_item_tail _ _ _ piece Hitem). reflexivity.
Qed.

Lemma quote_cons (d : ascii) (s safe : string) :
  quote (String d s) safe = quote_piece safe d ++ quote s safe.
Proof. reflexivity. Qed.

Lemma quote_piece_decodes (d : ascii) (s : string) :
  unquote (quote_piece " " d ++ s) = String d (unquote s).
Proof.
  unfold quote_piece.
  destruct (is_always_safe d || contains " " d) eqn:E;
    [| apply unquote_percent].
  cbn [append]. apply unquote_cons.
  revert E. every_ascii d; vm_compute; intros E; (reflexivity || discriminate E).
Qed.

Lemma unquote_quote (s : string) : unquote (quote s " ") = s.
Proof.
  induction s as [| d s IH]; [reflexivity |].
  rewrite quote_cons, quote_piece_decodes, IH. reflexivity.
Qed.

Lemma replace_app (a b : ascii) (x y : string) :
  replace a b (x ++ y) = replace a b x ++ replace a b y.
Proof. induction x as [| c x IH]; simpl; [reflexivity | now rewrite IH]. Qed.

Lemma quote_piece_plus (d : ascii) :
  replace "+" " " (replace " " "+" (quote_piece " " d)) = quote_piece " " d
  /\ (Ascii.eqb d " " = false ->
      replace "+" " " (quote_piece "" d) = quote_piece " " d).
Proof.
  every_ascii d; vm_compute; split; intros; (reflexivity || discriminate).
Qed.

(** The plus signs of [quote_plus] turned back into spaces. *)
Lemma replace_quote_plus (s : string) :
  replace "+" " " (quote_plus s) = quote s " ".
Proof.
  unfold quote_plus. destruct (contains s " ") eqn:E; cbn [negb].
  - clear E. induction s as [| d s IH]; [reflexivity |].
    rewrite quote_cons, !replace_app, IH.
    now rewrite (proj1 (quote_piece_plus d)).
  - induction s as [| d s IH]; [reflexivity |].
    cbn [contains] in E. apply orb_false_iff in E. destruct E as [Hd Hs].
    rewrite !quote_cons, replace_app, (IH Hs).
    now rewrite (proj2 (quote_piece_plus d) Hd).
Qed.

(** [parse_qsl] undoes [quote_plus]. *)
Lemma unquote_plus_quote_plus (s : string) :
  unquote (replace "+" " " (quote_plus s)) = s.
Proof. rewrite replace_quote_plus. apply unquote_quote. Qed.

Lemma quote_plus_nonempty (s : string) : s <> "" -> quote_plus s <> "".
Proof.
  intros Hs E. apply (f_equal (fun x => unquote (replace "+" " " x))) in E.
  rewrite unquote_plus_quote_plus in E. contradiction.
Qed.

Lemma get_url_query_of
    (uri : string) (headers gid : Z) (sheet : option string) (url : string) :
  get_url uri headers gid sheet = Ok url ->
  exists parts headers' gid' sheet',
    urlparse uri = Ok parts
    /\ resolve parts headers gid sheet = Ok (headers', gid', sheet')
    /\ query_of url = urlencode (url_args headers' gid' sheet').
Proof.
  intros H. apply get_url_ok in H.
  destruct H as (parts & headers' & gid' & sheet' & Hparts & Hres & ->).
  exists parts, headers', gid', sheet'.
  split; [exact Hparts |]. split; [exact Hres |].
  destruct (urlparse_undelimited _ _ Hparts) as (Hs & Hn & Hp).
  pose proof (urlunsplit_undelimited _ _ _ Hs Hn (gviz_path_undelimited _ Hp)) as Hbase.
  apply undelimited_free in Hbase. destruct Hbase as [Hq _].
  rewrite urlunparse_query by apply urlencode_url_args_nonempty.
  unfold query_of. cbn [append]. now rewrite split1_app.
Qed.

Lemma parse_qsl_sheet (prefix name : string) :
  name <> "" ->
  prefix = "" \/ (exists a, prefix = a ++ "&" /\ contains a "&" = false) ->
  exists pairs,
    parse_qsl (prefix ++ "sheet=" ++ quote_plus name)
    = (pairs ++ [("sheet"%string, name)])%list.
Proof.
  intros Hname Hprefix.
  pose proof (quote_plus_free name "&" eq_refl) as Hfree.
  assert (contains ("sheet=" ++ quote_plus name) "&" = false) as Hlast
    by (cbn [append contains Ascii.eqb Bool.eqb orb]; exact Hfree).
  assert (flat_map
            (fun name_value =>
               match split1 "=" name_value with
               | Some (name, value) =>
                   if negb (String.eqb value "") then
                     [(unquote (replace "+" " " name),
                       unquote (replace "+" " " value))]
                   else []
               | None => []
               end)
            ["sheet=" ++ quote_plus name]
          = [("sheet"%string, name)]) as Hsheet.
  { cbn [flat_map app].
    change ("sheet=" ++ quote_plus name)
      with ("sheet" ++ String "=" (quote_plus name)).
    rewrite split1_app by reflexivity.
    destruct (String.eqb_spec (quote_plus name) "") as [E | _];
      [now apply quote_plus_nonempty in E |].
    cbn [negb]. rewrite unquote_plus_quote_plus. reflexivity. }
  unfold parse_qsl.
  destruct Hprefix as [-> | (a & -> & Ha)].
  - exists []. cbn [append app].
    change (String.eqb ("sheet=" ++ quote_plus name) "") with false.
    cbn iota. rewrite split_free by exact Hlast. exact Hsheet.
  - rewrite app_assoc_str.
    change ("&" ++ "sheet=" ++ quote_plus name)
      with (String "&" ("sheet=" ++ quote_plus name)).
    destruct (String.eqb_spec (a ++ String "&" ("sheet=" ++ quote_plus name)) "")
      as [E | _].
    { destruct a; discriminate E. }
    rewrite split_app by exact Ha. rewrite split_free by exact Hlast.
    eexists.
    change (a :: ["sheet=" ++ quote_plus name])
      with ([a] ++ [("sheet=" ++ quote_plus name)%string])%list.
    rewrite flat_map_app, Hsheet. reflexivity.
Qed.

(** X15.  The sheet name survives the quoting of the query: parsing the
    query of the URL that [get_url] returns gives back, under "sheet",
    the resolved sheet name as it is, spaces, ampersands and other
    reserved characters included. *)
Theorem get_url_sheet_round_trip
    (uri : string) (parts : ParseResult) (headers gid headers' gid' : Z)
    (sheet : option string) (name url : string) :
  urlparse uri = Ok parts ->
  resolve parts headers gid sheet = Ok (headers', gid', Some name) ->
  name <> "" ->
  get_url uri headers gid sheet = Ok url ->
  last_param "sheet" (parse_qsl (query_of url)) = Some name.
Proof.
  intros Hparts Hres Hname H. apply get_url_query_of in H.
  destruct H as (parts' & h & g & s & Hparts' & Hres' & ->).
  assert (parts' = parts) as -> by congruence.
  rewrite Hres in Hres'. injection Hres' as <- <- <-.
  rewrite urlencode_url_args.
  destruct (parse_qsl_sheet
              (if headers' >? 0 then "headers=" ++ str headers' ++ "&" else "")
              name Hname) as (pairs & ->).
  - destruct (headers' >? 0); [right | left; reflexivity].
    exists ("headers=" ++ str headers'). split.
    + now rewrite app_assoc_str.
    + cbn [append contains Ascii.eqb Bool.eqb orb].
      apply str_free. reflexivity.
  - apply last_param_snoc.
Qed.

Lemma get_url_sheet_round_trip_witness :
  last_param "sheet"
    (parse_qsl (query_of "https://x/y/d/ID/gviz/tq?headers=1&sheet=Q1+%26+Q2"))
  = Some "Q1 & Q2"%string.
Proof.
  apply (get_url_sheet_round_trip "https://x/y/d/ID/edit"
           (mk_parts "https" "x" "/y/d/ID/edit" "" "" "")
           1 0 1 0 (Some "Q1 & Q2"%string)).
  - reflexivity.
  - reflexivity.
  - discriminate.
  - reflexivity.
Defined.

End UrlMore.

(** ** Synchronization mode resolver *)

Section SyncMore.

Import Urllib Url Sync.

Lemma by_name_member {M : Type} (members : list (string * Z * M))
    (name : string) (m : M) :
  by_name members name = Ok m -> exists code, In (name, code, m) members.
Proof.
  unfold by_name.
  destruct (find _ members) as [[[n c] m'] |] eqn:E; [| discriminate].
  intros H. injection H as <-. apply find_some in E. destruct E as [Hin Hn].
  cbn [fst] in Hn. apply String.eqb_eq in Hn. subst n. eauto.
Qed.

Lemma by_value_member {M : Type} (members : list (string * Z * M))
    (code : Z) (m : M) :
  by_value members code = Ok m -> exists name, In (name, code, m) members.
Proof.
  unfold by_value.
  destruct (find _ members) as [[[n c] m'] |] eqn:E; [| discriminate].
  intros H. injection H as <-. apply find_some in E. destruct E as [Hin Hc].
  cbn [fst snd] in Hc. apply Z.eqb_eq in Hc. subst c. eauto.
Qed.

(** X16.  On a URL that parses, with a network location in ASCII and
    without brackets and a token, if there is one, that is ASCII text,
    [get_sync_mode] has three outcomes and no other: [None]; a member of the enumeration, found under the token in
    upper case as its name or under the integer of the token as its code;
    or a configuration error "Invalid sync mode: " with the token in
    upper case.  The [KeyError] and [ValueError] of the lookups never
    reach the caller. *)
Theorem get_sync_mode_outcomes
    (M : Type) (members : list (string * Z * M))
    (uri : string) (parts : ParseResult) :
  urlparse uri = Ok parts ->
  plain_netloc parts = true ->
  (forall token, query_param "sync_mode" parts = Some token ->
                 is_ascii token = true) ->
  (query_param "sync_mode" parts = None
   /\ get_sync_mode members uri = Ok None)
  \/ (exists token name code m,
        query_param "sync_mode" parts = Some token
        /\ In (name, code, m) members
        /\ (name = upper token \/ int (upper token) = Ok code)
        /\ get_sync_mode members uri = Ok (Some m))
  \/ (exists token,
        query_param "sync_mode" parts = Some token
        /\ get_sync_mode members uri
           = Raise (ProgrammingError ("Invalid sync mode: " ++ upper token))).
Proof.
  intros Hparts _ _. rewrite (get_sync_mode_params members uri parts Hparts).
  destruct (query_param "sync_mode" parts) as [token |]; [right | left; auto].
  destruct (by_name_cases members (upper token)) as [[m Hm] | Hm]; rewrite Hm.
  - left. apply by_name_member in Hm. destruct Hm as [code Hin].
    exists token, (upper token), code, m. auto.
  - cbn [try_except is_KeyError].
    destruct (int_cases (upper token)) as [[code Hint] | Hint]; rewrite Hint.
    + cbn [bind].
      destruct (by_value_cases members code) as [[m Hv] | Hv]; rewrite Hv.
      * left. apply by_value_member in Hv. destruct Hv as [name Hin].
        exists token, name, code, m. auto.
      * right. exists token. auto.
    + right. exists token. auto.
Qed.

Lemma get_sync_mode_outcomes_witness :
  (query_param "sync_mode"
     (mk_parts "https" "x" "/y/d/ID/edit" "" "sync_mode=2" "") = None
   /\ get_sync_mode SyncMode_members "https://x/y/d/ID/edit?sync_mode=2" = Ok None)
  \/ (exists token name code m,
        query_param "sync_mode"
          (mk_parts "https" "x" "/y/d/ID/edit" "" "sync_mode=2" "") = Some token
        /\ In (name, code, m) SyncMode_members
        /\ (name = upper token \/ int (upper token) = Ok code)
        /\ get_sync_mode SyncMode_members "https://x/y/d/ID/edit?sync_mode=2"
           = Ok (Some m))
  \/ (exists token,
        query_param "sync_mode"
          (mk_parts "https" "x" "/y/d/ID/edit" "" "sync_mode=2" "") = Some token
        /\ get_sync_mode SyncMode_members "https://x/y/d/ID/edit?sync_mode=2"
           = Raise (ProgrammingError ("Invalid sync mode: " ++ upper token))).
Proof.
  apply (get_sync_mode_outcomes SyncMode SyncMode_members
           "https://x/y/d/ID/edit?sync_mode=2"
           (mk_parts "https" "x" "/y/d/ID/edit" "" "sync_mode=2" "")).
  - reflexivity.
  - reflexivity.
  - intros token H. vm_compute in H. injection H as <-. reflexivity.
Defined.

End SyncMore.

(** ** Error messages of the Chart API *)

Section ErrorsMore.

Import Errors.

Local Open Scope list_scope.

Lemma join_app (sep : string) (l1 l2 : list string) :
  l1 <> [] -> l2 <> [] ->
  join sep (l1 ++ l2) = (join sep l1 ++ sep ++ join sep l2)%string.
Proof.
  intros H1 H2. induction l1 as [| x l1 IH]; [contradiction |].
  destruct l1 as [| y l1].
  - destruct l2 as [| z l2]; [contradiction | reflexivity].
  - change (join sep ((x :: y :: l1) ++ l2))
      with (x ++ sep ++ join sep ((y :: l1) ++ l2))%string.
    rewrite IH by discriminate.
    change (join sep (x :: y :: l1)) with (x ++ sep ++ join sep (y :: l1))%string.
    now rewrite !app_assoc_str.
Qed.

Lemma comprehension_app_ok {A B : Type} (f : A -> result B) (l1 l2 : list A)
    (ys : list B) :
  comprehension f (l1 ++ l2) = Ok ys ->
  exists ys1 ys2,
    comprehension f l1 = Ok ys1 /\ comprehension f l2 = Ok ys2
    /\ ys = ys1 ++ ys2.
Proof.
  revert ys. induction l1 as [| x l1 IH]; cbn [app comprehension]; intros ys H.
  - exists [], ys. auto.
  - apply bind_ok in H. destruct H as (y & Hy & H).
    apply bind_ok in H. destruct H as (ys' & Hys & H). injection H as <-.
    destruct (IH _ Hys) as (ys1 & ys2 & H1 & H2 & ->).
    exists (y :: ys1), ys2. rewrite Hy, H1. auto.
Qed.

Lemma comprehension_length {A B : Type} (f : A -> result B) (l : list A)
    (ys : list B) :
  comprehension f l = Ok ys -> List.length ys = List.length l.
Proof.
  revert ys. induction l as [| x l IH]; cbn [comprehension]; intros ys H.
  - injection H as <-. reflexivity.
  - apply bind_ok in H. destruct H as (y & _ & H).
    apply bind_ok in H. destruct H as (ys' & Hys & H). injection H as <-.
    cbn [List.length]. now rewrite (IH _ Hys).
Qed.

(** X17.  The message of two lists of errors put one after the other is
    the message of the first, a blank line and the message of the second;
    an empty list contributes nothing, not even the blank line. *)
Theorem format_error_message_app
    (errors1 errors2 : list (dict string)) (r1 r2 : string) :
  format_error_message errors1 = Ok r1 ->
  format_error_message errors2 = Ok r2 ->
  format_error_message (errors1 ++ errors2)
  = Ok match errors1, errors2 with
       | [], _ => r2
       | _, [] => r1
       | _, _ => (r1 ++ blank_line ++ r2)%string
       end.
Proof.
  unfold format_error_message. intros H1 H2.
  apply bind_ok in H1. destruct H1 as (m1 & Hm1 & H1). injection H1 as <-.
  apply bind_ok in H2. destruct H2 as (m2 & Hm2 & H2). injection H2 as <-.
  rewrite (comprehension_app _ _ _ _ _ Hm1 Hm2). cbn [bind]. f_equal.
  pose proof (comprehension_length _ _ _ Hm1) as L1.
  pose proof (comprehension_length _ _ _ Hm2) as L2.
  destruct errors1 as [| e1 errors1].
  - destruct m1; [reflexivity | discriminate L1].
  - destruct errors2 as [| e2 errors2].
    + destruct m2; [now rewrite app_nil_r | discriminate L2].
    + apply join_app; [destruct m1 | destruct m2]; discriminate.
Qed.

Lemma format_error_message_app_witness :
  format_error_message
    ([[("detailed_message", "no column A")]]
     ++ [[("detailed_message", "bad query")]])%list
  = Ok ("no column A" ++ blank_line ++ "bad query")%string.
Proof.
  apply (format_error_message_app
           [[("detailed_message", "no column A")]]%string
           [[("detailed_message", "bad query")]]%string);
    reflexivity.
Defined.

(** X18.  [format_error_message] raises [KeyError] exactly when one of
    the errors has no "detailed_message"; it raises nothing else. *)
Theorem format_error_message_raises (errors : list (dict string)) :
  (Exists (fun error => dict_get error "detailed_message" = None) errors
   <-> format_error_message errors = Raise KeyError)
  /\ (forall e, format_error_message errors = Raise e -> e = KeyError).
Proof.
  unfold format_error_message.
  induction errors as [| error errors [IH1 IH2]]; cbn [comprehension bind].
  - split; [split; [intros H; inversion H | discriminate] | discriminate].
  - unfold dict_item at 1 3.
    destruct (dict_get error "detailed_message") as [m |] eqn:E; cbn [bind].
    + destruct (comprehension (fun error => dict_item error "detailed_message")
                  errors) as [ms | e'] eqn:C; cbn [bind] in *.
      * split; [split; [| discriminate] | discriminate].
        intros H. inversion H as [? ? H' | ? ? H']; subst; [congruence |].
        apply IH1 in H'. discriminate H'.
      * split.
        -- split.
           ++ intros _. now rewrite (IH2 e' eq_refl).
           ++ intros H. injection H as ->. right. now apply IH1.
        -- intros e H. injection H as <-. now apply IH2.
    + split; [split; [reflexivity | intros _; left; exact E] |].
      intros e H. now injection H as <-.
Qed.

Lemma format_error_message_raises_witness :
  format_error_message [[("message", "bad query")]]%string = Raise KeyError.
Proof.
  apply (proj1 (proj1 (format_error_message_raises
                         [[("message", "bad query")]]%string))).
  left. reflexivity.
Defined.

Lemma prefix_app (n b : string) : String.prefix n (n ++ b) = true.
Proof.
  induction n as [| c n IH]; cbn; [now destruct b |].
  destruct (ascii_dec c c); [exact IH | contradiction].
Qed.

Lemma prefix_app_r (n s b : string) :
  String.prefix n s = true -> String.prefix n (s ++ b) = true.
Proof.
  revert s. induction n as [| c n IH]; intros s H; [now destruct (s ++ b)%string |].
  destruct s as [| d s]; [discriminate H |]. cbn in *.
  destruct (ascii_dec c d); [now apply IH | discriminate H].
Qed.

Lemma occurs_app_l (n a s : string) :
  occurs n s = true -> occurs n (a ++ s) = true.
Proof.
  intros H. induction a as [| c a IH]; [exact H |].
  cbn [append occurs]. rewrite IH. apply orb_true_r.
Qed.

Lemma occurs_app_r (n s b : string) :
  occurs n s = true -> occurs n (s ++ b) = true.
Proof.
  induction s as [| c s IH]; cbn [occurs].
  - rewrite orb_false_r. intros H.
    destruct n; [now destruct b | discriminate H].
  - intros H. apply orb_true_iff in H. destruct H as [H | H].
    + pose proof (prefix_app_r n (String c s) b H) as P.
      cbn [append] in P. cbn [append occurs]. rewrite P. reflexivity.
    + cbn [append occurs]. rewrite (IH H). apply orb_true_r.
Qed.

Lemma occurs_refl (n : string) : occurs n n = true.
Proof.
  pose proof (prefix_app n "") as P. rewrite append_nil_r in P.
  destruct n; cbn [occurs]; [reflexivity | now rewrite P].
Qed.

Lemma occurs_join (sep m : string) (l : list string) :
  In m l -> occurs m (join sep l) = true.
Proof.
  induction l as [| x l IH]; [intros [] |].
  intros [-> | H].
  - destruct l; cbn [join]; [apply occurs_refl |].
    apply occurs_app_r, occurs_refl.
  - destruct l as [| y l]; [destruct H |].
    change (join sep (x :: y :: l)) with (x ++ sep ++ join sep (y :: l))%string.
    now apply occurs_app_l, occurs_app_l, IH.
Qed.

Lemma comprehension_in {A B : Type} (f : A -> result B) (l : list A)
    (ys : list B) (x : A) (y : B) :
  comprehension f l = Ok ys -> In x l -> f x = Ok y -> In y ys.
Proof.
  revert ys. induction l as [| a l IH]; cbn [comprehension]; intros ys H Hin Hy;
    [destruct Hin |].
  apply bind_ok in H. destruct H as (b & Hb & H).
  apply bind_ok in H. destruct H as (ys' & Hys & H). injection H as <-.
  destruct Hin as [-> | Hin].
  - left. congruence.
  - right. exact (IH _ Hys Hin Hy).
Qed.

(** X19.  No message is lost: the detailed message of every error of
    the list occurs in the text that [format_error_message] returns. *)
Theorem format_error_message_keeps
    (errors : list (dict string)) (error : dict string)
    (message text : string) :
  format_error_message errors = Ok text ->
  In error errors ->
  dict_get error "detailed_message" = Some message ->
  occurs message text = true.
Proof.
  unfold format_error_message. intros H Hin Hm.
  apply bind_ok in H. destruct H as (messages & Hms & H). injection H as <-.
  apply occurs_join.
  apply (comprehension_in _ _ _ error message Hms Hin).
  unfold dict_item. now rewrite Hm.
Qed.

Lemma format_error_message_keeps_witness :
  occurs "bad query" ("no column A" ++ blank_line ++ "bad query") = true.
Proof.
  apply (format_error_message_keeps
           [[("detailed_message", "no column A")];
            [("reason", "invalid_query"); ("detailed_message", "bad query")]]%string
           [("reason", "invalid_query"); ("detailed_message", "bad query")]%string).
  - reflexivity.
  - right. left. reflexivity.
  - reflexivity.
Defined.

End ErrorsMore.

(** ** Fields of the result columns *)

Section FieldsMore.

Import Errors Fields.

Local Open Scope list_scope.

Ltac known_type :=
  eexists; split; [reflexivity |];
  split; [reflexivity |];
  split; [intros H; cbn in H; try reflexivity; exfalso; intuition discriminate |];
  split; [intros H; try reflexivity; exfalso; apply H; cbn; tauto |];
  split; [intros H; exfalso; apply H; cbn; tauto |];
  intros H timezone'; try (exfalso; apply H; reflexivity);
  reflexivity.

(** X20.  [get_field] raises [KeyError] on a column without a "type".
    Otherwise it returns a field with [exact=True] whose only filter is
    [Range] for the types number, date, datetime and timeofday and [Equal]
    for every other type; a type that is none of the six it knows, be it
    one of them in another case, gives a string field; and the time zone
    changes nothing unless the type is datetime. *)
Theorem get_field_kinds {tzinfo : Type}
    (col : dict string) (timezone : option tzinfo) :
  match dict_get col "type" with
  | None => get_field col timezone = Raise KeyError
  | Some type =>
      exists field,
        get_field col timezone = Ok field
        /\ exact field = true
        /\ (In type ranged_types -> filters field = [Range])
        /\ (~ In type ranged_types -> filters field = [Equal])
        /\ (~ In type ["string"; "number"; "boolean"; "date"; "datetime";
                       "timeofday"]%string ->
            class_ field = Class GSheetsString)
        /\ (type <> "datetime"%string ->
            forall timezone', get_field col timezone' = Ok field)
  end.
Proof.
  unfold get_field, dict_item.
  destruct (dict_get col "type") as [type |]; [| reflexivity].
  cbn [bind type_map dict_get].
  destruct (String.eqb "string" type) eqn:E1;
    [apply String.eqb_eq in E1; subst type; known_type |].
  destruct (String.eqb "number" type) eqn:E2;
    [apply String.eqb_eq in E2; subst type; known_type |].
  destruct (String.eqb "boolean" type) eqn:E3;
    [apply String.eqb_eq in E3; subst type; known_type |].
  destruct (String.eqb "date" type) eqn:E4;
    [apply String.eqb_eq in E4; subst type; known_type |].
  destruct (String.eqb "datetime" type) eqn:E5;
    [apply String.eqb_eq in E5; subst type; known_type |].
  destruct (String.eqb "timeofday" type) eqn:E6;
    [apply String.eqb_eq in E6; subst type; known_type |].
  apply String.eqb_neq in E1, E2, E3, E4, E5, E6.
  eexists. split; [reflexivity |]. split; [reflexivity |].
  split; [intros H; cbn in H; exfalso; intuition congruence |].
  split; [reflexivity |]. split; [reflexivity |].
  intros _ timezone'. reflexivity.
Qed.

End FieldsMore.

(** ** Credentials *)

Section AuthMore.

Import Auth.

(** X21.  [get_credentials] returns no credentials exactly when the
    access token and the service account file are each absent or the
    empty string and the service account info is absent or an empty
    dictionary: an empty value counts as none. *)
Theorem get_credentials_none {V : Type}
    (access_token service_account_file : option string)
    (service_account_info : option (dict V)) (subject : option string) :
  get_credentials access_token service_account_file service_account_info subject
  = None
  <-> str_missing access_token
      /\ str_missing service_account_file
      /\ dict_missing service_account_info.
Proof.
  unfold get_credentials, str_missing, dict_missing.
  destruct access_token as [[| c1 t] |], service_account_file as [[| c2 f] |],
           service_account_info as [[| kv i] |];
    cbn [str_given dict_given];
    (split; [intros H; try discriminate H; repeat split; auto
            | intros (H1 & H2 & H3); try reflexivity;
              destruct H1 as [H1 | H1], H2 as [H2 | H2], H3 as [H3 | H3];
              discriminate ]).
Qed.

Lemma get_credentials_none_witness :
  get_credentials (V := string) (Some "") None (Some []) (Some "me") = None.
Proof.
  apply (proj2 (get_credentials_none (V := string)
                  (Some "") None (Some []) (Some "me"))).
  unfold str_missing, dict_missing. auto.
Defined.

(** X22.  The sources of credentials are tried in order and the first
    one given decides alone: with an access token, the file, the info and
    the subject play no part; with a file and no token, the info plays no
    part.  Service account credentials always get the three scopes of
    the module and the subject as it was passed. *)
Theorem get_credentials_priority {V : Type}
    (access_token service_account_file : option string)
    (service_account_info : option (dict V)) (subject : option string) :
  (~ str_missing access_token ->
   forall file' (info' : option (dict V)) subject',
     get_credentials access_token service_account_file service_account_info subject
     = get_credentials access_token file' info' subject')
  /\ (str_missing access_token -> ~ str_missing service_account_file ->
      forall info' : option (dict V),
        get_credentials access_token service_account_file service_account_info
          subject
        = get_credentials access_token service_account_file info' subject)
  /\ (forall filename scopes subject',
        get_credentials access_token service_account_file service_account_info
          subject
        = Some (FromServiceAccountFile filename scopes subject') ->
        Some filename = service_account_file
        /\ scopes = SCOPES /\ subject' = subject)
  /\ (forall info scopes subject',
        get_credentials access_token service_account_file service_account_info
          subject
        = Some (FromServiceAccountInfo info scopes subject') ->
        Some info = service_account_info
        /\ scopes = SCOPES /\ subject' = subject).
Proof.
  unfold get_credentials. split; [| split; [| split]].
  - intros Ht file' info' subject'.
    destruct access_token as [[| c t] |]; cbn [str_given];
      [exfalso; apply Ht; right; reflexivity
      | reflexivity
      | exfalso; apply Ht; left; reflexivity].
  - intros Ht Hf info'.
    assert (str_given access_token = None) as ->
      by (destruct Ht as [-> | ->]; reflexivity).
    destruct service_account_file as [[| c f] |]; cbn [str_given];
      [exfalso; apply Hf; right; reflexivity
      | reflexivity
      | exfalso; apply Hf; left; reflexivity].
  - intros filename scopes subject' H.
    destruct (str_given access_token); [discriminate H |].
    destruct service_account_file as [[| c f] |]; cbn [str_given] in H.
    + destruct (dict_given service_account_info); discriminate H.
    + injection H as <- <- <-. auto.
    + destruct (dict_given service_account_info); discriminate H.
  - intros info scopes subject' H.
    destruct (str_given access_token); [discriminate H |].
    destruct (str_given service_account_file); [discriminate H |].
    destruct service_account_info as [[| kv i] |]; cbn [dict_given] in H;
      try discriminate H.
    injection H as <- <- <-. auto.
Qed.

Lemma get_credentials_priority_witness :
  get_credentials (Some "token") (Some "key.json") (Some [("type", "x")]) (Some "me")
  = get_credentials (V := string) (Some "token") None None None.
Proof.
  apply (proj1 (get_credentials_priority (V := string)
                  (Some "token") (Some "key.json") (Some [("type", "x")])
                  (Some "me"))).
  intros [H | H]; discriminate H.
Defined.

End AuthMore.
